(** * gtt: agency normalizers, the GTA stop store, the transit proxy
    and the route list

    A shallow embedding of [src/components/fetch/adapters.ts] (the three
    agency normalizers), of the GTA stops database (the IndexedDB store
    of stops), of the proxy worker (its request handler) and of the two
    string functions of the route list, with the properties stated about
    them.

    The normalizers receive parsed JSON, so they are embedded over an
    untyped JavaScript value type with an explicit [Throws] outcome:
    property access on [undefined]/[null], calling a missing method and
    iterating a non-iterable are the TypeErrors of the source. *)

From Stdlib Require Import ZArith Ascii String List Bool Lia DecimalString.
From stdpp Require Import base option list strings gmap fin_maps sorting.

Set Warnings "-register-all".

Local Open Scope string_scope.
Local Open Scope Z_scope.

(** ** JavaScript values *)

Module JS.

(** Numbers. The payload fields the normalizers read as numbers are flags,
    line numbers and minute counts, and the numbers they compute are
    rounded minute counts or NaN: integer-valued doubles are written as
    their integer, and [NaN] is kept apart. Arithmetic on them is exact
    (doubles are, up to 2^53). *)
Inductive number : Type :=
  | NaN
  | Num (z : Z).

Inductive value : Type :=
  | VUndefined
  | VNull
  | VBool (b : bool)
  | VNum (n : number)
  | VStr (s : string)
  | VArr (items : list value)
  | VObj (fields : list (string * value)).

(** Outcome of an evaluation: a thrown error or a returned value. *)
Inductive result (A : Type) : Type :=
  | Throws
  | Returns (a : A).
Arguments Throws {A}.
Arguments Returns {A} a.

#[global] Instance result_ret : MRet result := fun A a => Returns a.
#[global] Instance result_bind : MBind result := fun A B f m =>
  match m with
  | Throws => Throws
  | Returns a => f a
  end.

Definition number_eqb (a b : number) : bool :=
  match a, b with
  | Num x, Num y => x =? y
  | _, _ => false
  end.

Definition isNaN (n : number) : bool :=
  match n with NaN => true | Num _ => false end.

(** ToBoolean. *)
Definition truthy (v : value) : bool :=
  match v with
  | VUndefined | VNull => false
  | VBool b => b
  | VNum NaN => false
  | VNum (Num z) => negb (z =? 0)
  | VStr s => negb (String.eqb s "")
  | VArr _ | VObj _ => true
  end.

(** [a || b] *)
Definition or_else (a b : value) : value := if truthy a then a else b.

Definition nullish (v : value) : bool :=
  match v with VUndefined | VNull => true | _ => false end.

Definition isArray (v : value) : bool :=
  match v with VArr _ => true | _ => false end.

(** [v === n] for a number literal [n]. *)
Definition strict_eq_num (v : value) (n : Z) : bool :=
  match v with VNum m => number_eqb m (Num n) | _ => false end.

Fixpoint lookup_field (k : string) (fs : list (string * value)) : value :=
  match fs with
  | [] => VUndefined
  | (k', v) :: fs' => if String.eqb k k' then v else lookup_field k fs'
  end.

(** [v.k] for the data properties the normalizers read (none of them is a
    built-in of String, Number, Boolean or Array): a TypeError on
    [undefined] and [null], [undefined] on the other primitives and on
    arrays. *)
Definition Get (v : value) (k : string) : result value :=
  match v with
  | VUndefined | VNull => Throws
  | VObj fs => Returns (lookup_field k fs)
  | _ => Returns VUndefined
  end.

(** [v?.k] *)
Definition GetOpt (v : value) (k : string) : value :=
  match v with
  | VObj fs => lookup_field k fs
  | _ => VUndefined
  end.

(** *** Strings

    A string of the source is held as its UTF-8 bytes. The classes [\d]
    and [\w] of the patterns are ASCII in ECMAScript as they are here.
    White space and line terminators have characters outside ASCII; they
    are recognised by their bytes. *)

Definition code (c : ascii) : N := N_of_ascii c.

Definition is_digit (c : ascii) : bool :=
  ((48 <=? code c) && (code c <=? 57))%N.

Definition is_letter (c : ascii) : bool :=
  (((65 <=? code c) && (code c <=? 90)) || ((97 <=? code c) && (code c <=? 122)))%N.

Definition is_ascii (c : ascii) : bool := (code c <? 128)%N.

(** [\w] *)
Definition is_word (c : ascii) : bool :=
  is_digit c || is_letter c || (code c =? 95)%N.

(** White space and line terminators of one byte: TAB, LF, VT, FF, CR,
    SP. *)
Definition is_space (c : ascii) : bool :=
  (((9 <=? code c) && (code c <=? 13)) || (code c =? 32))%N.

(** White space of two bytes: U+00A0. *)
Definition is_space2 (a b : ascii) : bool :=
  ((code a =? 194) && (code b =? 160))%N.

(** White space and line terminators of three bytes: U+1680, U+2000 to
    U+200A, U+2028, U+2029, U+202F, U+205F, U+3000 and U+FEFF. *)
Definition is_space3 (a b c : ascii) : bool :=
  (((code a =? 225) && (code b =? 154) && (code c =? 128))
   || ((code a =? 226) && (code b =? 128)
       && (((128 <=? code c) && (code c <=? 138))
           || (code c =? 168) || (code c =? 169) || (code c =? 175)))
   || ((code a =? 226) && (code b =? 129) && (code c =? 159))
   || ((code a =? 227) && (code b =? 128) && (code c =? 128))
   || ((code a =? 239) && (code b =? 187) && (code c =? 191)))%N.

(** The number of bytes of the white space character that [s] starts
    with, 0 when it starts with none. *)
Definition space_width (s : string) : nat :=
  match s with
  | String a r =>
      if is_space a then 1%nat
      else match r with
           | String b r2 =>
               if is_space2 a b then 2%nat
               else match r2 with
                    | String c _ => if is_space3 a b c then 3%nat else 0%nat
                    | EmptyString => 0%nat
                    end
           | EmptyString => 0%nat
           end
  | EmptyString => 0%nat
  end.

(** [s] without the white space it starts with. *)
Fixpoint skip_space (s : string) : string :=
  match s with
  | EmptyString => EmptyString
  | String a r =>
      if is_space a then skip_space r
      else match r with
           | String b r2 =>
               if is_space2 a b then skip_space r2
               else match r2 with
                    | String c r3 => if is_space3 a b c then skip_space r3 else s
                    | EmptyString => s
                    end
           | EmptyString => s
           end
  end.

(** Line terminators of one byte: LF and CR. *)
Definition is_line_terminator (c : ascii) : bool :=
  ((code c =? 10) || (code c =? 13))%N.

(** Line terminators of three bytes: U+2028 and U+2029. *)
Definition is_line_terminator3 (a b c : ascii) : bool :=
  ((code a =? 226) && (code b =? 128) && ((code c =? 168) || (code c =? 169)))%N.

(** Whether [s] holds a line terminator, which the [.] of a pattern does
    not match. *)
Fixpoint has_line_terminator (s : string) : bool :=
  match s with
  | EmptyString => false
  | String a r =>
      is_line_terminator a
      || match r with
         | String b (String c _) => is_line_terminator3 a b c
         | _ => false
         end
      || has_line_terminator r
  end.

Definition digit_value (c : ascii) : Z := Z.of_N (code c) - 48.

Fixpoint take_while (p : ascii -> bool) (s : string) : string :=
  match s with
  | EmptyString => EmptyString
  | String c s' => if p c then String c (take_while p s') else EmptyString
  end.

Fixpoint drop_while (p : ascii -> bool) (s : string) : string :=
  match s with
  | EmptyString => EmptyString
  | String c s' => if p c then drop_while p s' else s
  end.

Fixpoint string_forall (p : ascii -> bool) (s : string) : bool :=
  match s with
  | EmptyString => true
  | String c s' => p c && string_forall p s'
  end.

Definition is_empty (s : string) : bool :=
  match s with EmptyString => true | _ => false end.

(** [s.trimEnd()]: the string ends where nothing but white space is
    left. *)
Fixpoint trim_end (s : string) : string :=
  match s with
  | EmptyString => EmptyString
  | String c s' =>
      if is_empty (skip_space s) then EmptyString else String c (trim_end s')
  end.

(** [s.trim()] *)
Definition trim (s : string) : string := trim_end (skip_space s).

(** [s.split(',')] *)
Fixpoint split_comma (s : string) : list string :=
  match s with
  | EmptyString => [EmptyString]
  | String c s' =>
      let r := split_comma s' in
      if (code c =? 44)%N then EmptyString :: r
      else match r with
           | t :: ts => String c t :: ts
           | [] => [String c EmptyString]
           end
  end.

Fixpoint digits_value (acc : Z) (s : string) : Z :=
  match s with
  | EmptyString => acc
  | String c s' =>
      if is_digit c then digits_value (10 * acc + digit_value c) s' else acc
  end.

(** [parseInt(s, 10)] on a string: leading white space is skipped, one
    sign is read, then the longest run of decimal digits; no digit gives
    NaN. The value is the mathematical one (a double rounds it above 2^53,
    keeping its sign). *)
Definition parseInt (s : string) : number :=
  let s1 := skip_space s in
  let '(neg, s2) :=
    match s1 with
    | String c r =>
        if (code c =? 45)%N then (true, r)
        else if (code c =? 43)%N then (false, r)
        else (false, s1)
    | EmptyString => (false, s1)
    end in
  match s2 with
  | String c _ =>
      if is_digit c
      then Num (if neg then - digits_value 0 s2 else digits_value 0 s2)
      else NaN
  | EmptyString => NaN
  end.

(** Number to string, of an integer: the decimal digits (JavaScript
    goes over to exponent notation from 10^21 on). *)
Definition number_to_string (n : number) : string :=
  match n with
  | NaN => "NaN"
  | Num z => NilZero.string_of_int (Z.to_int z)
  end.

Fixpoint join_comma (l : list string) : string :=
  match l with
  | [] => ""
  | [s] => s
  | s :: l' => s ++ "," ++ join_comma l'
  end.

(** ToString, which is also what [toString()] gives on each kind of
    value. On an object this is the conversion of a plain data object, as
    the declared types of the payloads have none at all where a string, a
    number or a date is expected: an object with a property [toString] of
    its own makes the conversions of the source throw, and the properties
    that say when the normalizers return or throw keep to payloads without
    objects in these places ([plain] below). *)
Fixpoint ToString (v : value) : string :=
  match v with
  | VUndefined => "undefined"
  | VNull => "null"
  | VBool true => "true"
  | VBool false => "false"
  | VNum n => number_to_string n
  | VStr s => s
  | VArr items =>
      join_comma
        (List.map (fun x => match x with
                            | VUndefined | VNull => ""
                            | _ => ToString x
                            end) items)
  | VObj _ => "[object Object]"
  end.

(** [parseInt(v, 10)] on any value. *)
Definition parseInt_value (v : value) : number := parseInt (ToString v).

(** [v?.toString()] *)
Definition toString_opt (v : value) : value :=
  if nullish v then VUndefined else VStr (ToString v).

(** [Math.round(d / k)] for integers [d] and [k > 0]: the nearest integer,
    ties towards +infinity. *)
Definition Math_round_div (d k : Z) : Z := (2 * d + k) / (2 * k).

End JS.

(** ** The agency normalizers ([adapters.ts]) *)

Module Adapters.
Import JS.

(** What the normalizers take from their host: the [Date] constructor
    followed by [getTime()] (milliseconds since the epoch, NaN for an
    invalid date), and the system clock, [clock n] being the reading of
    the [n]-th [new Date()]. The constructor is given strings and numbers
    by the declared types; on an object it first converts as [ToString]
    does, with the same proviso. *)
Record Host : Type := {
  Date_getTime : value -> number;
  clock : nat -> Z
}.

(** An absent optional field is [VUndefined]. *)
Record ArrivalPrediction : Type := {
  line : value;
  destination : value;
  timeMinutes : number;
  isGhost : bool;
  vehicleId : value;
  platform : value
}.

(** The for-of loops that push onto the shared [predictions] array. *)
Fixpoint collect {A B : Type} (f : A -> result (list B)) (l : list A)
  : result (list B) :=
  match l with
  | [] => mret []
  | x :: l' => ys ← f x; rest ← collect f l'; mret (ys ++ rest)%list
  end.

(** *** GO Transit *)

(** [Math.max(0, Math.round((departureTime.getTime() - now.getTime()) / 60000))].
    A NaN time gives NaN. On time values the span is an integer, and the
    division and the rounding in doubles give the integer written here as
    long as the span stays below 2^53 ms. *)
Definition minutesUntil (departureTime : number) (now : Z) : number :=
  match departureTime with
  | NaN => NaN
  | Num t => Num (Z.max 0 (Math_round_div (t - now) 60000))
  end.

Definition scheduledTime (h : Host) (service : value) : result number :=
  raw ← Get service "ScheduledDepartureTime";
  mret (Date_getTime h raw).

Definition computedTime (h : Host) (service : value) : result number :=
  sched ← scheduledTime h service;
  raw ← Get service "ComputedDepartureTime";
  mret (if truthy raw then Date_getTime h raw else sched).

(** The callback of [services.map]. *)
Definition goService (h : Host) (now : Z) (service : value)
  : result ArrivalPrediction :=
  sched ← scheduledTime h service;
  comp ← computedTime h service;
  flag ← Get service "Computed";
  let departureTime := if strict_eq_num flag 1 then comp else sched in
  train ← Get service "TrainNumber";
  bus ← Get service "BusNumber";
  actual ← Get service "ActualPlatform";
  planned ← Get service "ScheduledPlatform";
  lname ← Get service "LineName";
  lcode ← Get service "LineCode";
  dname ← Get service "DirectionName";
  mret {| line := or_else lname lcode;
          destination := dname;
          timeMinutes := minutesUntil departureTime now;
          isGhost := strict_eq_num flag 0;
          vehicleId := or_else (or_else train bus) VUndefined;
          platform := or_else (or_else actual planned) VUndefined |}.

(** [services.map]: the callback reads the clock once per entry. *)
Fixpoint goMap (h : Host) (tick : nat) (services : list value)
  : result (list ArrivalPrediction) :=
  match services with
  | [] => mret []
  | service :: rest =>
      ap ← goService h (clock h tick) service;
      aps ← goMap h (S tick) rest;
      mret (ap :: aps)
  end.

(** [tick] is the number of clock readings taken before the call. *)
Definition normalizeGoTransit (h : Host) (tick : nat) (apiResponse : value)
  : result (list ArrivalPrediction) :=
  data ← Get apiResponse "data";
  let services := GetOpt data "NextService" in
  if negb (truthy services) || negb (isArray services) then mret []
  else match services with
       | VArr l => goMap h tick l
       | _ => mret []
       end.

(** *** TTC *)

(** [Array.isArray(v) ? v : [v]] *)
Definition one_or_many (v : value) : list value :=
  match v with
  | VArr l => l
  | _ => [v]
  end.

(** Capture group of the line pattern, anchored at the start of the string:
    one or more digits, taken greedily, then any run of word characters. *)
Definition match_line (s : string) : option string :=
  let digits := take_while is_digit s in
  if is_empty digits then None
  else Some (digits ++ take_while is_word (drop_while is_digit s)).

Definition lower (c : ascii) : ascii :=
  if ((65 <=? code c) && (code c <=? 90))%N then ascii_of_N (code c + 32) else c.

Fixpoint strip_prefix_ci (p s : string) : option string :=
  match p with
  | EmptyString => Some s
  | String a p' =>
      match s with
      | String b s' =>
          if Ascii.eqb (lower a) (lower b) then strip_prefix_ci p' s' else None
      | EmptyString => None
      end
  end.

(** Capture group of [/towards (.+)$/i]: at the first position where the
    literal is found and the rest of the string is one non-empty line
    (without the [u] flag, the letters of the literal match in either case
    and match no character outside ASCII). *)
Fixpoint match_towards (s : string) : option string :=
  let next := match s with
              | EmptyString => None
              | String _ s' => match_towards s'
              end in
  match strip_prefix_ci "towards " s with
  | Some rest =>
      if negb (is_empty rest) && negb (has_line_terminator rest)
      then Some rest
      else next
  | None => next
  end.

(** [v?.match(re)?.[1]]: [undefined] when [v] is nullish or nothing
    matches, a TypeError when [v] is neither nullish nor a string. *)
Definition match_opt (re : string -> option string) (v : value)
  : result (option string) :=
  match v with
  | VUndefined | VNull => mret None
  | VStr s => mret (re s)
  | _ => Throws
  end.

Definition capture (m : option string) : value :=
  match m with
  | Some s => VStr s
  | None => VUndefined
  end.

(** [n || 0] *)
Definition or_zero (n : number) : number :=
  if truthy (VNum n) then n else Num 0.

(** Body of the innermost loop. The route tag is read only where the
    source gets to it: when the title gives no match, and when there is no
    capture to take the line from. *)
Definition ttcEta (pred dir eta : value) : result ArrivalPrediction :=
  title ← Get dir "title";
  fromTitle ← match_opt match_line title;
  lineMatch ← match fromTitle with
              | Some _ => mret fromTitle
              | None => routeTag ← Get pred "routeTag"; match_opt match_line routeTag
              end;
  line ← (if truthy (capture lineMatch) then mret (capture lineMatch)
          else routeTag ← Get pred "routeTag"; mret (or_else routeTag (VStr "")));
  destMatch ← match_opt match_towards title;
  minutes ← Get eta "minutes";
  vehicle ← Get eta "vehicle";
  mret {| line := line;
          destination := or_else (or_else (capture destMatch) title) (VStr "");
          timeMinutes := or_zero (parseInt_value minutes);
          isGhost := false;
          vehicleId := toString_opt vehicle;
          platform := VUndefined |}.

Definition ttcDirection (pred dir : value) : result (list ArrivalPrediction) :=
  prediction ← Get dir "prediction";
  if negb (truthy prediction) then mret []
  else collect (fun eta => ap ← ttcEta pred dir eta; mret [ap])
               (one_or_many prediction).

Definition ttcPrediction (pred : value) : result (list ArrivalPrediction) :=
  direction ← Get pred "direction";
  if negb (truthy direction) then mret []
  else collect (ttcDirection pred) (one_or_many direction).

Definition normalizeTtc (json : value) : result (list ArrivalPrediction) :=
  predictions ← Get json "predictions";
  if negb (truthy predictions) then mret []
  else collect ttcPrediction (one_or_many predictions).

(** *** TTC subway *)

(** [for (const item of v)]: arrays give their elements, strings their
    characters, anything else is not iterable. *)
Definition iterate (v : value) : result (list value) :=
  match v with
  | VArr l => mret l
  | VStr s => mret (List.map (fun c => VStr (String c EmptyString)) (list_ascii_of_string s))
  | _ => Throws
  end.

(** [item.nextTrains.split(',').map(t => parseInt(t.trim(), 10))] *)
Definition nextTrainTimes (nextTrains : string) : list number :=
  List.map (fun t => parseInt (trim t)) (split_comma nextTrains).

Definition subwayPrediction (item_line directionText : value) (minutes : number)
  : ArrivalPrediction :=
  {| line := if truthy item_line
             then VStr ("Line " ++ ToString item_line)
             else VStr "Subway";
     destination := or_else directionText (VStr "");
     timeMinutes := minutes;
     isGhost := false;
     vehicleId := VUndefined;
     platform := VUndefined |}.

(** Body of the outer loop, for one item of the response. *)
Definition subwayItem (item : value) : result (list ArrivalPrediction) :=
  nextTrains ← Get item "nextTrains";
  if negb (truthy nextTrains) then mret []
  else match nextTrains with
       | VStr s =>
           item_line ← Get item "line";
           directionText ← Get item "directionText";
           collect (fun minutes =>
                      if isNaN minutes then mret []
                      else mret [subwayPrediction item_line directionText minutes])
                   (nextTrainTimes s)
       | _ => Throws
       end.

Definition normalizeTtcSubway (response : value)
  : result (list ArrivalPrediction) :=
  items ← iterate response;
  collect subwayItem items.

(** The three normalizers behind one interface: a call is made on a host,
    after [tick] clock readings. *)
Record Normalizer : Type := {
  run : Host -> nat -> value -> result (list ArrivalPrediction)
}.

Definition goNormalizer : Normalizer := {| run := normalizeGoTransit |}.
Definition ttcNormalizer : Normalizer := {| run := fun _ _ => normalizeTtc |}.
Definition subwayNormalizer : Normalizer := {| run := fun _ _ => normalizeTtcSubway |}.

(** A host for concrete runs: the clock stands still at [now], and [Date]
    is given time values only ([new Date(t).getTime()] is [t]), anything
    else being an invalid date. *)
Definition fixed_host (now : Z) : Host :=
  {| Date_getTime := fun v => match v with VNum n => n | _ => NaN end;
     clock := fun _ => now |}.

(** *** Vocabulary of the properties *)

(** The nearest minute [r] to a span of [d] milliseconds, half minutes
    going up. *)
Definition rounds_to (d r : Z) : Prop :=
  60000 * r - 30000 <= d < 60000 * r + 30000.

(** What [timeMinutes] has to be for a departure time and a clock
    reading: the rounded span clamped at zero, NaN for an invalid date. *)
Definition minutes_spec (selected : number) (now : Z) (m : number) : Prop :=
  match selected with
  | NaN => m = NaN
  | Num t => exists r, rounds_to (t - now) r /\ m = Num (Z.max 0 r)
  end.

Definition not_negative (m : number) : Prop :=
  forall z, m = Num z -> 0 <= z.

(** The leading token of a title or route tag, when it is a string that
    starts with one. *)
Definition leading_token (v : value) : option string :=
  match v with
  | VStr s => match_line s
  | _ => None
  end.



(** The line of a TTC prediction, from the title of its direction and the
    route tag of its prediction. *)
Definition line_spec (title routeTag : value) : value :=
  match leading_token title with
  | Some tok => VStr tok
  | None =>
      match leading_token routeTag with
      | Some tok => VStr tok
      | None => if truthy routeTag then routeTag else VStr ""
      end
  end.

(** A [nextTrains] token parses when [parseInt] reads a number off it. *)
Definition parses (tok : string) : bool := negb (isNaN (parseInt (trim tok))).

(** The minutes a subway item announces: its parsed tokens, in order. *)
Definition item_minutes (item : value) : list number :=
  match GetOpt item "nextTrains" with
  | VStr s => List.map (fun tok => parseInt (trim tok)) (List.filter parses (split_comma s))
  | _ => []
  end.

(** Two outcomes that agree on everything but [timeMinutes]. *)
Definition same_but_minutes (r1 r2 : result (list ArrivalPrediction)) : Prop :=
  match r1, r2 with
  | Throws, Throws => True
  | Returns a, Returns b =>
      Forall2 (fun x y => line x = line y /\ destination x = destination y
                          /\ isGhost x = isGhost y /\ vehicleId x = vehicleId y
                          /\ platform x = platform y) a b
  | _, _ => False
  end.

(** *** Payloads of the expected shapes

    What the declared parameter types promise of a payload, as far as the
    normalizers rely on it: entries are objects, and titles, route tags and
    [nextTrains] are strings when present. *)







Definition go_ok (apiResponse : value) : bool :=
  negb (nullish apiResponse)
  && match GetOpt (GetOpt apiResponse "data") "NextService" with
     | VArr l => forallb (fun s => negb (nullish s)) l
     | _ => true
     end.

Definition subway_item_ok (item : value) : bool :=
  negb (nullish item)
  && match GetOpt item "nextTrains" with
     | VStr _ => true
     | v => negb (truthy v)
     end.

Definition subway_ok (response : value) : bool :=
  match response with
  | VArr l => forallb subway_item_ok l
  | VStr _ => true
  | _ => false
  end.

(** The entries a loop goes through: none when the field is falsy. *)
Definition present (v : value) : list value :=
  if truthy v then one_or_many v else [].

(** The etas of a TTC payload in the order of the three loops, each with
    the prediction and the direction it hangs under. *)
Definition ttc_etas (json : value) : list (value * value * value) :=
  flat_map (fun pred =>
    flat_map (fun dir =>
      List.map (fun eta => (pred, dir, eta)) (present (GetOpt dir "prediction")))
      (present (GetOpt pred "direction")))
    (present (GetOpt json "predictions")).

(** *** Payloads without objects where text, numbers or dates stand

    A value that is no object and no array: its conversion to a string,
    to a number or to a date cannot throw. *)
Definition plain (v : value) : bool :=
  match v with
  | VArr _ | VObj _ => false
  | _ => true
  end.



(** The fields of a GO entry that are given to [new Date]. *)
Definition service_typed (service : value) : bool :=
  plain (GetOpt service "ScheduledDepartureTime")
  && plain (GetOpt service "ComputedDepartureTime").

Definition go_typed (apiResponse : value) : bool :=
  match GetOpt (GetOpt apiResponse "data") "NextService" with
  | VArr l => forallb service_typed l
  | _ => true
  end.

(** The field of a subway item that goes into the template of its
    label. *)
Definition subway_typed (response : value) : bool :=
  match response with
  | VArr l => forallb (fun item => plain (GetOpt item "line")) l
  | _ => true
  end.

(** The destination of a TTC prediction, from the title of its direction:
    what follows [towards], else the title, else the empty string. *)
Definition destination_spec (title : value) : value :=
  match title with
  | VStr s =>
      match match_towards s with
      | Some rest => VStr rest
      | None => VStr s
      end
  | _ => VStr ""
  end.

Definition lower_string (s : string) : string :=
  string_of_list_ascii (List.map lower (list_ascii_of_string s)).


(** A token that begins, after blanks, with an optional sign and a
    digit. *)
Definition integer_start (tok : string) : bool :=
  match skip_space tok with
  | String c r =>
      if ((code c =? 45) || (code c =? 43))%N
      then match r with String d _ => is_digit d | EmptyString => false end
      else is_digit c
  | EmptyString => false
  end.

(** The departure time a GO entry is counted to. *)
Definition departureTime (h : Host) (service : value) : number :=
  if strict_eq_num (GetOpt service "Computed") 1
  then (if truthy (GetOpt service "ComputedDepartureTime")
        then Date_getTime h (GetOpt service "ComputedDepartureTime")
        else Date_getTime h (GetOpt service "ScheduledDepartureTime"))
  else Date_getTime h (GetOpt service "ScheduledDepartureTime").

(** The first of two fields that is set, [undefined] when neither is. *)
Definition first_set (a b : value) : value :=
  if truthy a then a else if truthy b then b else VUndefined.

(** The label of a subway item. *)
Definition subway_label (item : value) : value :=
  if truthy (GetOpt item "line")
  then VStr ("Line " ++ ToString (GetOpt item "line"))
  else VStr "Subway".

(** *** Payloads for concrete runs *)

(** A GO payload for concrete runs: a scheduled-only service leaving at
    301 s, and a live one that left, whose computed time is missing. *)
Definition go_payload : value :=
  VObj [("agency", VStr "go"); ("stopCode", VStr "UN");
        ("data", VObj [("NextService", VArr [
           VObj [("Computed", VNum (Num 0));
                 ("ScheduledDepartureTime", VNum (Num 301000));
                 ("LineName", VStr "Lakeshore West");
                 ("DirectionName", VStr "Union Station")];
           VObj [("Computed", VNum (Num 1));
                 ("ScheduledDepartureTime", VNum (Num (-301000)));
                 ("LineCode", VStr "LE")]])])].

(** A live service: scheduled at 601 s, expected at 181 s. *)
Definition go_live_service : value :=
  VObj [("Computed", VNum (Num 1));
        ("ScheduledDepartureTime", VNum (Num 601000));
        ("ComputedDepartureTime", VNum (Num 181000));
        ("LineName", VStr "Kitchener")].

Definition go_live_payload : value :=
  VObj [("data", VObj [("NextService", VArr [go_live_service])])].

Definition go_services : list value :=
  match GetOpt (GetOpt go_payload "data") "NextService" with
  | VArr l => l
  | _ => []
  end.

(** A TTC payload with bare objects at the three levels: no title or
    route tag starts with a digit, and the eta counts minus five minutes. *)
Definition ttc_payload : value :=
  VObj [("predictions",
         VObj [("routeTag", VStr "ABC");
               ("direction",
                VObj [("title", VStr "West - King towards Distillery Loop");
                      ("prediction",
                       VObj [("minutes", VStr "-5"); ("vehicle", VStr "4402")])])])].

(** The subway payload of the specification's scenario. *)
Definition subway_payload : value :=
  VArr [VObj [("nextTrains", VStr "3, 7, x, 12");
              ("directionText", VStr "Northbound");
              ("line", VNum (Num 1))]].

(** Payloads off the declared types: a [null] service entry, a [null]
    prediction, a [nextTrains] that is a number. *)
Definition go_null_entry : value :=
  VObj [("data", VObj [("NextService", VArr [VNull])])].


Definition subway_numeric_trains : value :=
  VArr [VObj [("nextTrains", VNum (Num 5)); ("directionText", VStr "Northbound")]].

(** The line separator U+2028, as its bytes. *)
Definition line_separator : string :=
  String (ascii_of_N 226) (String (ascii_of_N 128) (String (ascii_of_N 168)
    EmptyString)).

(** The token U+00A0 5, as its bytes, and a subway item with it. *)
Definition nbsp_five : string :=
  String (ascii_of_N 194) (String (ascii_of_N 160) "5").

Definition subway_blanks_item : value :=
  VObj [("nextTrains", VStr (" 3 ," ++ nbsp_five ++ ",x,-2,+ 4"));
        ("directionText", VStr "Southbound")].

(** A host whose clock advances by one minute from one reading to the
    next. *)
Definition ticking_host : Host :=
  {| Date_getTime := fun v => match v with VNum n => n | _ => NaN end;
     clock := fun n => 1000 + 60000 * Z.of_nat n |}.

End Adapters.

(** ** The GTA stops database *)

Module StopStore.
Import JS.

Inductive AgencyID : Type := ttc | go | yrt | miway | brampton.

#[global] Instance AgencyID_eq_dec : EqDecision AgencyID.
Proof. solve_decision. Defined.

(** The double-precision operations the store applies to coordinates, as
    the host computes them. [nnan] tells NaN, which is no valid IndexedDB
    key. *)
Class Double (num : Type) : Type := {
  nadd : num -> num -> num;
  nsub : num -> num -> num;
  nsquare : num -> num;
  nsqrt : num -> num;
  nle : num -> num -> bool;
  npos : num -> bool;
  nzero : num;
  nnan : num -> bool
}.

(** Insertion sort, stable: [x] goes behind the elements it is greater
    than. For a consistent comparator this is the result that
    [Array.prototype.sort] and an index cursor are specified to give. *)
Fixpoint insert_by {A : Type} (gt : A -> A -> bool) (x : A) (l : list A)
  : list A :=
  match l with
  | [] => [x]
  | y :: l' => if gt x y then y :: insert_by gt x l' else x :: l
  end.

Definition sort_by {A : Type} (gt : A -> A -> bool) (l : list A) : list A :=
  foldr (insert_by gt) [] l.

Section Store.
Context {num : Type} `{!Double num}.

(** The haversine helper of [components/nearby/coordinate-utils], which the
    store imports: taken as given, on (lat, lon) pairs. *)
Variable distanceOfTwoCoordinates : num * num -> num * num -> num.

(** [TransitStop], without its optional query-time [distance], which the
    store neither reads nor writes. *)
Record UnifiedStop : Type := {
  id : string;
  code : string;
  agency : AgencyID;
  name : string;
  lat : num;
  lon : num
}.

(** The value type of the [stops] object store: the six fields and the
    optional legacy ones. *)
Record StoredStop : Type := {
  fields : UnifiedStop;
  legacy_tag : option string;
  legacy_stopId : option string;
  legacy_title : option string;
  legacy_lines : option (list string);
  legacy_directions : option string;
  legacy_type : option string
}.

Record StopWithDistance : Type := {
  stop : UnifiedStop;
  distance : num;
  realDistance : num;
  title : string;
  lines : list string;
  directions : string;
  type : option string
}.

(** The object store is a [gmap string StoredStop], by primary key. *)
Definition entries (db : gmap string StoredStop) : list (string * StoredStop) :=
  map_to_list db.

(** [s || d] on an optional string. *)
Definition string_or (s : option string) (d : string) : string :=
  match s with
  | Some t => if is_empty t then d else t
  | None => d
  end.

Definition withDistance (r : StoredStop) (d rd : num) : StopWithDistance :=
  {| stop := fields r;
     distance := d;
     realDistance := rd;
     title := string_or (legacy_title r) (name (fields r));
     lines := default [] (legacy_lines r);
     directions := string_or (legacy_directions r) "";
     type := legacy_type r |}.

Definition put (db : gmap string StoredStop) (r : StoredStop)
  : gmap string StoredStop :=
  <[id (fields r) := r]> db.

Definition stored (s : UnifiedStop) : StoredStop :=
  {| fields := s;
     legacy_tag := None; legacy_stopId := None; legacy_title := None;
     legacy_lines := None; legacy_directions := None; legacy_type := None |}.

Definition saveStops (db : gmap string StoredStop) (stops : list UnifiedStop)
  : gmap string StoredStop :=
  foldl (fun d s => put d (stored s)) db stops.

(** Order of primary keys. IndexedDB compares strings by their UTF-16
    code units. On the UTF-8 bytes this is the order of the bytes, but for
    the characters from U+E000 to U+FFFF (first byte 238 or 239), which
    come after the characters beyond U+FFFF (first byte from 240 on):
    [key_rank] moves the first bytes accordingly. *)
Definition key_rank (c : ascii) : ascii :=
  if (JS.code c =? 238)%N then ascii_of_N 254
  else if (JS.code c =? 239)%N then ascii_of_N 255
  else if (240 <=? JS.code c)%N then ascii_of_N (JS.code c - 2)
  else c.

Definition key_image (s : string) : string :=
  string_of_list_ascii (List.map key_rank (list_ascii_of_string s)).

Definition key_le (a b : string) : bool := String.leb (key_image a) (key_image b).

Definition key_gt (a b : string) : bool := negb (key_le a b).

(** Entries of the [agency] index under [IDBKeyRange.only(a)], in cursor
    order. *)
Definition agencyIndex_only (db : gmap string StoredStop) (a : AgencyID)
  : list (string * StoredStop) :=
  sort_by (fun x y => key_gt x.1 y.1)
          (List.filter (fun e => bool_decide (agency (fields e.2) = a)) (entries db)).

(** The cursor loop: each entry of the range is deleted by its primary
    key. *)
Definition clearAgency (db : gmap string StoredStop) (a : AgencyID)
  : gmap string StoredStop :=
  foldl (fun d e => delete e.1 d) db (agencyIndex_only db a).

Definition getAgencyCount (db : gmap string StoredStop) (a : AgencyID) : nat :=
  length (agencyIndex_only db a).

Definition getStop (db : gmap string StoredStop) (i : string)
  : option StopWithDistance :=
  match db !! i with
  | None => None
  | Some r => Some (withDistance r nzero nzero)
  end.

(** Order of the [lat] index: by key, then by primary key. *)
Definition lat_gt (x y : string * StoredStop) : bool :=
  negb (nle (lat (fields x.2)) (lat (fields y.2)))
  || (nle (lat (fields y.2)) (lat (fields x.2)) && key_gt x.1 y.1).

(** Entries of the [lat] index under [IDBKeyRange.bound(lower, upper)]. A
    record whose [lat] is NaN has no entry. *)
Definition latIndex_bound (db : gmap string StoredStop) (lower upper : num)
  : list (string * StoredStop) :=
  sort_by lat_gt
    (List.filter (fun e => negb (nnan (lat (fields e.2)))
                           && nle lower (lat (fields e.2))
                           && nle (lat (fields e.2)) upper)
                 (entries db)).

Definition agency_matches (agencyFilter : option AgencyID) (a : AgencyID) : bool :=
  match agencyFilter with
  | None => true
  | Some f => bool_decide (a = f)
  end.

(** Body of the cursor loop: what one candidate adds to [results]. *)
Definition visit (qlat qlon range lowerLon upperLon : num)
    (agencyFilter : option AgencyID) (r : StoredStop) : list StopWithDistance :=
  let s := fields r in
  if nle lowerLon (lon s) && nle (lon s) upperLon then
    if agency_matches agencyFilter (agency s) then
      let d := nsqrt (nadd (nsquare (nsub (lat s) qlat)) (nsquare (nsub (lon s) qlon))) in
      let rd := distanceOfTwoCoordinates (qlat, qlon) (lat s, lon s) in
      if nle d range then [withDistance r d rd] else []
    else []
  else [].

(** [a.realDistance - b.realDistance > 0] *)
Definition farther (a b : StopWithDistance) : bool :=
  npos (nsub (realDistance a) (realDistance b)).

(** [IDBKeyRange.bound] throws a DataError when a bound is NaN or the lower
    bound is above the upper one. *)
Definition getStopsWithinRange (db : gmap string StoredStop)
    (qlat qlon range : num) (agencyFilter : option AgencyID)
  : result (list StopWithDistance) :=
  let lowerLat := nsub qlat range in
  let upperLat := nadd qlat range in
  let lowerLon := nsub qlon range in
  let upperLon := nadd qlon range in
  if nnan lowerLat || nnan upperLat || negb (nle lowerLat upperLat) then Throws
  else
    let results :=
      flat_map (fun e => visit qlat qlon range lowerLon upperLon agencyFilter e.2)
               (latIndex_bound db lowerLat upperLat) in
    Returns (sort_by farther results).

(** *** The other operations of the store *)

(** [db.clear("stops")] *)
Definition clear (db : gmap string StoredStop) : gmap string StoredStop := ∅.

(** [db.count("stops")] *)
Definition getSize (db : gmap string StoredStop) : nat := size db.

(** Entries of the [code] index under [IDBKeyRange.only(c)], in cursor
    order. *)
Definition codeIndex_only (db : gmap string StoredStop) (c : string)
  : list (string * StoredStop) :=
  sort_by (fun x y => key_gt x.1 y.1)
          (List.filter (fun e => String.eqb (code (fields e.2)) c) (entries db)).

(** The cursor loop returns at the first entry of the agency asked for. *)
Definition getStopByCode (db : gmap string StoredStop) (c : string) (a : AgencyID)
  : option StopWithDistance :=
  match List.find (fun e => bool_decide (agency (fields e.2) = a)) (codeIndex_only db c) with
  | Some e => Some (withDistance e.2 nzero nzero)
  | None => None
  end.

(** [isAgency] of the unified models. *)
Definition isAgency (s : UnifiedStop) (a : AgencyID) : bool :=
  bool_decide (agency s = a).

(** Every record sits under its own [id], as [keyPath: "id"] has it. *)
Definition keyed (db : gmap string StoredStop) : Prop :=
  forall k r, db !! k = Some r -> id (fields r) = k.

(** *** Vocabulary of the properties *)

(** The stop of a saved list that is read back under a key: the last one
    that carries it. *)
Definition latest (i : string) (stops : list UnifiedStop) : option UnifiedStop :=
  last (filter (fun s => id s = i) stops).

(** A stop as [getStop] shows it after [saveStops]: no legacy field, both
    distances zero. *)
Definition fresh (s : UnifiedStop) : StopWithDistance :=
  {| stop := s; distance := nzero; realDistance := nzero;
     title := name s; lines := []; directions := ""; type := None |}.

(** The planar distance of a stop from the query point. *)
Definition planar (qlat qlon : num) (s : UnifiedStop) : num :=
  nsqrt (nadd (nsquare (nsub (lat s) qlat)) (nsquare (nsub (lon s) qlon))).

(** A result of a range query lies in the bounding box and in the disc,
    matches the agency filter, and carries its two distances. *)
Definition within (qlat qlon range : num) (agencyFilter : option AgencyID)
    (w : StopWithDistance) : Prop :=
  nle (nsub qlat range) (lat (stop w)) = true
  /\ nle (lat (stop w)) (nadd qlat range) = true
  /\ nle (nsub qlon range) (lon (stop w)) = true
  /\ nle (lon (stop w)) (nadd qlon range) = true
  /\ nle (planar qlat qlon (stop w)) range = true
  /\ distance w = planar qlat qlon (stop w)
  /\ realDistance w
     = distanceOfTwoCoordinates (qlat, qlon) (lat (stop w), lon (stop w))
  /\ (forall f, agencyFilter = Some f -> agency (stop w) = f).

Definition closer_or_equal (a b : StopWithDistance) : Prop :=
  nle (realDistance a) (realDistance b) = true.

(** The facts of IEEE arithmetic that ordering by a difference rests on:
    [<=] is transitive, and on numbers other than NaN it is total and
    [a - b > 0] is the negation of [a <= b]. *)
Class DoubleLaws : Prop := {
  nle_trans : forall a b c, nle a b = true -> nle b c = true -> nle a c = true;
  nle_total : forall a b, nnan a = false -> nnan b = false ->
                nle a b = true \/ nle b a = true;
  nsub_pos : forall a b, nnan a = false -> nnan b = false ->
               npos (nsub a b) = negb (nle a b)
}.

End Store.

(** The five agencies. *)
Definition agencies : list AgencyID := [ttc; go; yrt; miway; brampton].

(** The integers as numbers, for the concrete runs of the witnesses and
    examples only (the properties are stated over any [Double]): there is
    no NaN, and the square root is the integer one. *)
#[global] Instance Z_double : Double Z := {|
  nadd := Z.add; nsub := Z.sub; nsquare := fun x => x * x; nsqrt := Z.sqrt;
  nle := Z.leb; npos := fun x => 0 <? x; nzero := 0; nnan := fun _ => false |}.

(** A distance for concrete runs on the integers. *)
Definition taxicab (p q : Z * Z) : Z := Z.abs (p.1 - q.1) + Z.abs (p.2 - q.2).

(** Stops for concrete runs, on the integers. *)
Definition sample_stop (i c : string) (a : AgencyID) (n : string) (la lo : Z)
  : UnifiedStop (num := Z) :=
  {| id := i; code := c; agency := a; name := n; lat := la; lon := lo |}.

Definition sample_stops : list (UnifiedStop (num := Z)) :=
  [ sample_stop "GO_B" "1" go "Bloor" 5 5;
    sample_stop "TTC_A" "2" ttc "Spadina" 3 4;
    sample_stop "GO_C" "3" go "Union" 0 1;
    sample_stop "TTC_D" "4" ttc "Kipling" 100 0 ].

(** One key saved twice in a list. *)
Definition twice_saved : list (UnifiedStop (num := Z)) :=
  [ sample_stop "TTC_A" "2" ttc "Spadina" 3 4;
    sample_stop "TTC_A" "9" go "Dupont" 1 1 ].

Definition sample_db : gmap string (StoredStop (num := Z)) :=
  saveStops ∅ sample_stops.

(** Two stops of one code and agency. *)
Definition same_code_db : gmap string (StoredStop (num := Z)) :=
  saveStops ∅ [ sample_stop "GO_B" "7" go "Bloor" 5 5;
                sample_stop "GO_A" "7" go "Aldershot" 1 1 ].

(** The ids U+1F68C and U+FF21, as their bytes. *)
Definition astral_id : string :=
  String (ascii_of_N 240) (String (ascii_of_N 159) (String (ascii_of_N 154)
    (String (ascii_of_N 140) EmptyString))).

Definition fullwidth_id : string :=
  String (ascii_of_N 239) (String (ascii_of_N 188) (String (ascii_of_N 161)
    EmptyString)).

Definition unicode_ids_db : gmap string (StoredStop (num := Z)) :=
  saveStops ∅ [ sample_stop fullwidth_id "7" go "BMP id" 5 5;
                sample_stop astral_id "7" go "astral id" 1 1 ].

End StopStore.

(** ** The proxy worker *)

Module Worker.
Import JS.

Definition ALLOWED_ORIGINS : list string :=
  [ "https://thomassth.github.io";
    "https://tobus.ca";
    "http://localhost:5173";
    "http://localhost:4173" ].

Definition CORS_HEADERS : list (string * string) :=
  [ ("Access-Control-Allow-Methods", "GET, OPTIONS");
    ("Access-Control-Allow-Headers", "Content-Type");
    ("Access-Control-Max-Age", "86400") ].

(** What the handler reads of a request: the method, the [Origin] header
    ([None] when [headers.get] gives [null]) and the two query parameters
    as [searchParams.get] gives them. *)
Record Request : Type := {
  method : string;
  origin : option string;
  agency : option string;
  stopCode : option string
}.

(** A response: the body is the value handed to [JSON.stringify], [None]
    for the [null] body. *)
Record Response : Type := {
  status : Z;
  headers : list (string * string);
  body : option value
}.

(** An operation of the host that may throw or reject, with the [message]
    of the error. *)
Inductive Attempt (A : Type) : Type :=
  | Fails (message : value)
  | Gives (a : A).
Arguments Fails {A} message.
Arguments Gives {A} a.

(** What [fetch] comes back with: a rejection, or a reply with its status
    and what [text()] and [json()] give on it. *)
Inductive Upstream : Type :=
  | Rejected (message : value)
  | Replied (up_status : Z) (up_text : Attempt string) (up_json : Attempt value).

(** The host of the worker: [encodeURIComponent], [fetch] (by URL and
    [KeyId] header), [new Date().toISOString()], and the message of the
    error that [new Response] throws on a status. *)
Record Host : Type := {
  encodeURIComponent : string -> string;
  fetch : string -> string -> Upstream;
  toISOString : string;
  init_error : Z -> value
}.

Definition null_body_status (s : Z) : bool :=
  (s =? 101) || (s =? 103) || (s =? 204) || (s =? 205) || (s =? 304).

(** [new Response(body, { status, headers })]: a RangeError on a status
    outside 200..599, a TypeError on a body with a null body status. *)
Definition newResponse (h : Host) (b : option value) (s : Z)
    (hs : list (string * string)) : Attempt Response :=
  if (s <? 200) || (599 <? s) then Fails (init_error h s)
  else if (if b is Some _ then true else false) && null_body_status s
       then Fails (init_error h s)
       else Gives {| status := s; headers := hs; body := b |}.

(** Header names compare without regard to case. *)
Definition header_is (name : string) (entry : string * string) : bool :=
  String.eqb (Adapters.lower_string name) (Adapters.lower_string entry.1).

(** [headers.get(name)] *)
Definition headers_get (name : string) (hs : list (string * string))
  : option string :=
  match List.find (header_is name) hs with
  | Some e => Some e.2
  | None => None
  end.

(** [headers.set(name, v)]: the first header of that name takes the value
    and the others go; without one the header is appended. *)
Fixpoint headers_set (name v : string) (hs : list (string * string))
  : list (string * string) :=
  match hs with
  | [] => [(name, v)]
  | e :: hs' =>
      if header_is name e
      then (e.1, v) :: List.filter (fun e' => negb (header_is name e')) hs'
      else e :: headers_set name v hs'
  end.

(** [ALLOWED_ORIGINS.includes(origin) ? origin : ALLOWED_ORIGINS[0]] *)
Definition allowedOrigin (request : Request) : string :=
  match origin request with
  | Some o =>
      if bool_decide (o ∈ ALLOWED_ORIGINS) then o
      else List.hd EmptyString ALLOWED_ORIGINS
  | None => List.hd EmptyString ALLOWED_ORIGINS
  end.

Definition handleOptions (h : Host) (request : Request) : Attempt Response :=
  newResponse h None 204
    (CORS_HEADERS ++ [("Access-Control-Allow-Origin", allowedOrigin request)])%list.

Definition addCorsHeaders (h : Host) (response : Response) (request : Request)
  : Attempt Response :=
  newResponse h (body response) (status response)
    (headers_set "Access-Control-Allow-Origin" (allowedOrigin request)
                 (headers response)).

(** [new Response(JSON.stringify(v), { status, headers: { 'Content-Type':
    'application/json' } })] *)
Definition jsonResponse (h : Host) (v : value) (s : Z) : Attempt Response :=
  newResponse h (Some v) s [("Content-Type", "application/json")].

Definition is_2xx (s : Z) : bool := (200 <=? s) && (s <=? 299).

(** The [catch] of [fetchGoTransit]. *)
Definition fetchFailed (h : Host) (message : value) : Attempt Response :=
  jsonResponse h
    (VObj [("error", VStr "Failed to fetch from Metrolinx"); ("message", message)])
    500.

(** [fetchGoTransit], with the requests it sends upstream (URL and
    [KeyId]). *)
Definition fetchGoTransit (h : Host) (stop : string) (METROLINX_KEY : option string)
  : Attempt Response * list (string * string) :=
  match METROLINX_KEY with
  | None | Some EmptyString =>
      (jsonResponse h (VObj [("error", VStr "Metrolinx API key not configured")]) 500,
       [])
  | Some apiKey =>
      let url :=
        ("http://api.openmetrolinx.com/OpenDataAPI/api/V1/Stop/NextService/"
         ++ encodeURIComponent h stop)%string in
      let attempt :=
        match fetch h url apiKey with
        | Rejected m => Fails m
        | Replied s text json =>
            if negb (is_2xx s) then
              match text with
              | Fails m => Fails m
              | Gives t =>
                  jsonResponse h
                    (VObj [("error", VStr "Metrolinx API error");
                           ("status", VNum (Num s));
                           ("message", VStr t)])
                    s
              end
            else
              match json with
              | Fails m => Fails m
              | Gives data =>
                  jsonResponse h
                    (VObj [("agency", VStr "go");
                           ("stopCode", VStr stop);
                           ("data", data);
                           ("timestamp", VStr (toISOString h))])
                    200
              end
        end in
      (match attempt with
       | Fails m => fetchFailed h m
       | Gives r => Gives r
       end,
       [(url, apiKey)])
  end.

(** [a ≫= f] on attempts. *)
Definition andThen {A B : Type} (a : Attempt A) (f : A -> Attempt B) : Attempt B :=
  match a with
  | Fails m => Fails m
  | Gives x => f x
  end.

Definition withCors (h : Host) (request : Request) (response : Attempt Response)
  : Attempt Response :=
  andThen response (fun r => addCorsHeaders h r request).

(** The [fetch] handler of the worker, with the requests it sends
    upstream. *)
Definition handle (h : Host) (METROLINX_KEY : option string) (request : Request)
  : Attempt Response * list (string * string) :=
  if String.eqb (method request) "OPTIONS" then (handleOptions h request, [])
  else if negb (String.eqb (method request) "GET") then
    (withCors h request (jsonResponse h (VObj [("error", VStr "Method not allowed")]) 405),
     [])
  else
    let missing :=
      (withCors h request
         (jsonResponse h
            (VObj [("error", VStr "Missing required parameters");
                   ("required", VArr [VStr "agency"; VStr "stopCode"]);
                   ("example", VStr "?agency=go&stopCode=UN")])
            400),
       []) in
    match agency request, stopCode request with
    | Some a, Some c =>
        if is_empty a || is_empty c then missing
        else if String.eqb (Adapters.lower_string a) "go" then
          let '(response, sent) := fetchGoTransit h c METROLINX_KEY in
          (withCors h request response, sent)
        else
          (withCors h request
             (jsonResponse h
                (VObj [("error", VStr "Unknown agency");
                       ("agency", VStr a);
                       ("supported", VArr [VStr "go"])])
                400),
           [])
    | _, _ => missing
    end.

(** [!agency || !stopCode] *)
Definition missing_parameters (request : Request) : Prop :=
  match agency request, stopCode request with
  | Some a, Some c => is_empty a = true \/ is_empty c = true
  | _, _ => True
  end.

(** A host for concrete runs: the upstream answers 404 to every request. *)
Definition host_404 : Host :=
  {| encodeURIComponent := fun s => s;
     fetch := fun _ _ => Replied 404 (Gives "not found") (Fails (VStr "no JSON"));
     toISOString := "2026-01-01T00:00:00.000Z";
     init_error := fun _ => VStr "bad status" |}.

Definition get_go (o : option string) : Request :=
  {| method := "GET"; origin := o; agency := Some "GO"; stopCode := Some "UN" |}.

End Worker.

(** ** The route list: titles and kinds of lines

    The two string functions of the route list. Their regular expressions
    are written out as the searches they make. *)

Module Routes.
Import JS.

Definition is_hex_digit (c : ascii) : bool :=
  (is_digit c || ((65 <=? code c) && (code c <=? 70))
   || ((97 <=? code c) && (code c <=? 102)))%N.

Definition hex_value (c : ascii) : Z :=
  if is_digit c then digit_value c
  else if (code c <=? 70)%N then Z.of_N (code c) - 55
  else Z.of_N (code c) - 87.

Fixpoint hex_digits_value (acc : Z) (s : string) : Z :=
  match s with
  | EmptyString => acc
  | String c s' =>
      if is_hex_digit c then hex_digits_value (16 * acc + hex_value c) s' else acc
  end.

(** [0x] or [0X] at the start of [s]: what follows it. *)
Definition hex_prefix (s : string) : option string :=
  match s with
  | String z (String x r) =>
      if ((code z =? 48) && ((code x =? 120) || (code x =? 88)))%N
      then Some r else None
  | _ => None
  end.

(** [Number.parseInt(s)] without a radix: leading blanks are skipped, one
    sign is read, then the digits are hexadecimal after [0x] or [0X] and
    decimal otherwise; no digit gives NaN. *)
Definition parseInt_any (s : string) : number :=
  let s1 := skip_space s in
  let '(neg, s2) :=
    match s1 with
    | String c r =>
        if (code c =? 45)%N then (true, r)
        else if (code c =? 43)%N then (false, r)
        else (false, s1)
    | EmptyString => (false, s1)
    end in
  match hex_prefix s2 with
  | Some s3 =>
      match s3 with
      | String c _ =>
          if is_hex_digit c
          then Num (if neg then - hex_digits_value 0 s3 else hex_digits_value 0 s3)
          else NaN
      | EmptyString => NaN
      end
  | None =>
      match s2 with
      | String c _ =>
          if is_digit c
          then Num (if neg then - digits_value 0 s2 else digits_value 0 s2)
          else NaN
      | EmptyString => NaN
      end
  end.

(** [n <= k] *)
Definition at_most (n : number) (k : Z) : bool :=
  match n with
  | NaN => false
  | Num z => z <=? k
  end.

(** A match of [\d+-] at the start of [s]: what follows the match. The
    digits are taken as far as they go, and giving some back cannot help,
    since a digit would stand where the hyphen has to. *)
Definition digits_hyphen (s : string) : option string :=
  match s with
  | String c _ =>
      if is_digit c then
        match drop_while is_digit s with
        | String h r => if (code h =? 45)%N then Some r else None
        | EmptyString => None
        end
      else None
  | EmptyString => None
  end.

(** The leftmost match of [routeTitleRegex] in [s]: what stands before
    it and what follows it. *)
Fixpoint routeTitleRegex_exec (s : string) : option (string * string) :=
  match digits_hyphen s with
  | Some r => Some (EmptyString, r)
  | None =>
      match s with
      | EmptyString => None
      | String c s' =>
          match routeTitleRegex_exec s' with
          | Some (pre, post) => Some (String c pre, post)
          | None => None
          end
      end
  end.

(** [routeTitleRegex.test(input)] *)
Definition routeTitleRegex_test (input : string) : bool :=
  match routeTitleRegex_exec input with
  | Some _ => true
  | None => false
  end.

(** [input.replace(routeTitleRegex, "")]: the first match goes. *)
Definition routeTitleRegex_remove (input : string) : string :=
  match routeTitleRegex_exec input with
  | Some (pre, post) => pre ++ post
  | None => input
  end.

Definition parseRouteTitle (input : string) : string :=
  if routeTitleRegex_test input then routeTitleRegex_remove input else input.

(** [/c[\d]{2}.*/.test(s)] for the characters [c] of a class: somewhere in
    [s] one of them is followed by two digits. *)
Fixpoint lead_two_digits (lead : ascii -> bool) (s : string) : bool :=
  match s with
  | EmptyString => false
  | String c r =>
      (lead c
       && match r with
          | String d1 (String d2 _) => is_digit d1 && is_digit d2
          | _ => false
          end)
      || lead_two_digits lead r
  end.

Definition is_char (k : N) (c : ascii) : bool := (code c =? k)%N.

(** The class [[2,4]]: the comma is one of its characters. *)
Definition is_2_comma_4 (c : ascii) : bool :=
  is_char 50 c || is_char 44 c || is_char 52 c.

Definition lineType (text : string) : string :=
  if at_most (parseInt_any text) 6 then "rail"
  else if lead_two_digits (is_char 57) text then "express"
  else if lead_two_digits (is_char 51) text then "night"
  else if lead_two_digits (is_char 53) text then "streetcar"
  else if String.eqb text "1" then "seasonal"
  else if lead_two_digits is_2_comma_4 text then "seasonal"
  else "local".

(** The kind of a route number, by its hundreds. *)
Definition kind_by_hundreds (n : Z) : string :=
  if n <=? 6 then "rail"
  else if n <? 100 then "local"
  else match n / 100 with
       | 9 => "express"
       | 3 => "night"
       | 5 => "streetcar"
       | 2 | 4 => "seasonal"
       | _ => "local"
       end.

End Routes.

(** * Properties of the normalizers *)

Module AdapterFacts.
Import JS Adapters.

(** [mret] is [Returns]. *)
Ltac unret := unfold mret, result_ret in *.

(** ** Property access and the loops *)

Lemma Get_GetOpt v k : nullish v = false -> Get v k = Returns (GetOpt v k).
Proof. by destruct v. Qed.

Lemma Get_Returns v k x : Get v k = Returns x -> nullish v = false /\ x = GetOpt v k.
Proof. destruct v; simpl; intros Hx; by simplify_eq. Qed.

Lemma strict_eq_num_true v n : strict_eq_num v n = true <-> v = VNum (Num n).
Proof.
  destruct v as [| |b|[|z]|s|l|fs]; simpl; try (split; [discriminate|congruence]).
  rewrite Z.eqb_eq. split; congruence.
Qed.

Lemma bind_Returns {A B} (f : A -> result B) (m : result A) (b : B) :
  (x ← m; f x) = Returns b <-> exists a, m = Returns a /\ f a = Returns b.
Proof.
  destruct m as [|a]; simpl.
  - split; [discriminate | intros (a & Ha & _); discriminate].
  - split; [eauto | intros (a' & Ha & Hf); by simplify_eq].
Qed.



(** Whatever a loop has pushed was pushed by its body on one entry. *)
Lemma collect_elem_of {A B} (f : A -> result (list B)) l ys y :
  collect f l = Returns ys -> y ∈ ys ->
  exists x zs, x ∈ l /\ f x = Returns zs /\ y ∈ zs.
Proof.
  revert ys. induction l as [|x l IH]; simpl; intros ys Hc Hy.
  - unfold mret, result_ret in Hc. simplify_eq. by apply elem_of_nil in Hy.
  - destruct (f x) as [|zs] eqn:Hx; simpl in Hc; [done|].
    destruct (collect f l) as [|rest]; simpl in Hc; [done|].
    unfold mret, result_ret in Hc. simplify_eq.
    apply elem_of_app in Hy as [Hy|Hy].
    + exists x, zs. split_and!; [left | done | done].
    + destruct (IH rest eq_refl Hy) as (x' & zs' & Hin & Hf & Hz).
      exists x', zs'. split_and!; [by right | done | done].
Qed.

(** The loop returns as soon as its body does on every entry. *)
Lemma collect_total {A B} (f : A -> result (list B)) l :
  Forall (fun x => exists ys, f x = Returns ys) l ->
  exists ys, collect f l = Returns ys.
Proof.
  induction 1 as [|x l [ys Hx] _ [rest IH]]; simpl; [by eexists|].
  rewrite Hx, IH. simpl. by eexists.
Qed.

(** ** Rounding *)

Lemma Math_round_div_rounds d : rounds_to d (Math_round_div d 60000).
Proof.
  unfold rounds_to, Math_round_div.
  pose proof (Z.div_mod (2 * d + 60000) (2 * 60000)) as Hdiv.
  pose proof (Z.mod_pos_bound (2 * d + 60000) (2 * 60000)) as Hmod.
  lia.
Qed.

Lemma rounds_to_unique d r1 r2 : rounds_to d r1 -> rounds_to d r2 -> r1 = r2.
Proof. unfold rounds_to. lia. Qed.

Lemma minutesUntil_spec t now : minutes_spec t now (minutesUntil t now).
Proof.
  destruct t as [|t]; simpl; [done|].
  eexists. split; [apply Math_round_div_rounds | done].
Qed.

Lemma minutesUntil_not_negative t now : not_negative (minutesUntil t now).
Proof. destruct t as [|t]; intros z Hz; simpl in Hz; simplify_eq. lia. Qed.

(** ** GO Transit *)

(** On an entry that is not [null] or [undefined] the callback returns,
    and this is what it returns. *)
Lemma goService_Returns h now service :
  nullish service = false ->
  exists ap, goService h now service = Returns ap
    /\ isGhost ap = strict_eq_num (GetOpt service "Computed") 0
    /\ timeMinutes ap =
         minutesUntil
           (if strict_eq_num (GetOpt service "Computed") 1
            then (if truthy (GetOpt service "ComputedDepartureTime")
                  then Date_getTime h (GetOpt service "ComputedDepartureTime")
                  else Date_getTime h (GetOpt service "ScheduledDepartureTime"))
            else Date_getTime h (GetOpt service "ScheduledDepartureTime"))
           now.
Proof.
  intros Hs. unfold goService, computedTime, scheduledTime.
  rewrite !(Get_GetOpt service) by done. simpl. eauto.
Qed.

Lemma goService_Throws h now service :
  nullish service = true -> goService h now service = Throws.
Proof. by destruct service. Qed.

Lemma goMap_Returns h tick services :
  Forall (fun s => nullish s = false) services ->
  exists aps, goMap h tick services = Returns aps
    /\ length aps = length services
    /\ forall (i : nat) service, services !! i = Some service ->
         exists ap, aps !! i = Some ap
           /\ goService h (clock h (tick + i)) service = Returns ap.
Proof.
  intros Hall. revert tick.
  induction Hall as [|s l Hs _ IH]; intros tick; simpl.
  - exists []. split_and!; [done | done | intros i service Hi; by destruct i].
  - destruct (goService_Returns h (clock h tick) s Hs) as (ap & Hap & _).
    destruct (IH (S tick)) as (aps & Haps & Hlen & Hlook).
    rewrite Hap, Haps. simpl. exists (ap :: aps). split_and!; [done | simpl; lia |].
    intros [|i] service Hi; simpl in Hi.
    + simplify_eq. exists ap. by rewrite Nat.add_0_r.
    + destruct (Hlook i service Hi) as (ap' & Hap' & Hgo).
      exists ap'. split; [done|]. by replace (tick + S i)%nat with (S tick + i)%nat by lia.
Qed.

(** With a service list whose entries are objects, the normalizer returns
    one prediction per entry, each made by the callback at its own clock
    reading. *)
Lemma normalizeGoTransit_entries h tick apiResponse services :
  nullish apiResponse = false ->
  GetOpt (GetOpt apiResponse "data") "NextService" = VArr services ->
  Forall (fun s => nullish s = false) services ->
  exists aps, normalizeGoTransit h tick apiResponse = Returns aps
    /\ length aps = length services
    /\ forall (i : nat) service, services !! i = Some service ->
         exists ap, aps !! i = Some ap
           /\ goService h (clock h (tick + i)) service = Returns ap.
Proof.
  intros Hr Hsv Hall. unfold normalizeGoTransit.
  rewrite (Get_GetOpt apiResponse) by done. simpl. rewrite Hsv. simpl.
  by apply goMap_Returns.
Qed.

(** C1. For a GO payload whose service list holds objects, the normalizer
    returns one prediction per entry; the prediction of an entry has
    [isGhost = true] exactly when the entry's [Computed] is 0, and
    [isGhost = false] when it is 1; its [timeMinutes] is the span from the
    clock reading to the selected departure time, rounded to the nearest
    minute and clamped at zero, and is never negative. The selected time
    is the date of the field [ComputedDepartureTime] when [Computed] is 1
    and that field is set, and the date of the field
    [ScheduledDepartureTime] when [Computed] is 1 without the field set
    or [Computed] is not 1. *)
Theorem normalizeGoTransit_ghost_minutes h tick apiResponse services :
  nullish apiResponse = false ->
  GetOpt (GetOpt apiResponse "data") "NextService" = VArr services ->
  Forall (fun s => nullish s = false) services ->
  exists aps, normalizeGoTransit h tick apiResponse = Returns aps
    /\ length aps = length services
    /\ forall (i : nat) service, services !! i = Some service ->
       exists ap,
         aps !! i = Some ap
         /\ (isGhost ap = true <-> GetOpt service "Computed" = VNum (Num 0))
         /\ (GetOpt service "Computed" = VNum (Num 1) ->
               isGhost ap = false
               /\ (truthy (GetOpt service "ComputedDepartureTime") = true ->
                   minutes_spec
                     (Date_getTime h (GetOpt service "ComputedDepartureTime"))
                     (clock h (tick + i)) (timeMinutes ap))
               /\ (truthy (GetOpt service "ComputedDepartureTime") = false ->
                   minutes_spec
                     (Date_getTime h (GetOpt service "ScheduledDepartureTime"))
                     (clock h (tick + i)) (timeMinutes ap)))
         /\ (GetOpt service "Computed" <> VNum (Num 1) ->
               minutes_spec
                 (Date_getTime h (GetOpt service "ScheduledDepartureTime"))
                 (clock h (tick + i)) (timeMinutes ap))
         /\ not_negative (timeMinutes ap).
Proof.
  intros Hr Hsv Hall.
  destruct (normalizeGoTransit_entries h tick apiResponse services Hr Hsv Hall)
    as (aps & Hrun & Hlen & Hat).
  exists aps. split_and!; [done | done |].
  intros i service Hi.
  destruct (Hat i service Hi) as (ap & Hap & Hgo).
  assert (Hobj : nullish service = false).
  { rewrite Forall_forall in Hall. apply Hall. by eapply list_elem_of_lookup_2. }
  destruct (goService_Returns h (clock h (tick + i)) service Hobj)
    as (ap' & Hgo' & Hghost & Hmin).
  rewrite Hgo in Hgo'. injection Hgo' as <-.
  exists ap. split; [done|].
  split_and!.
  - rewrite Hghost. apply strict_eq_num_true.
  - intros Hone. rewrite Hghost, Hmin, Hone. simpl. split_and!; [done | |].
    + intros ->. apply minutesUntil_spec.
    + intros ->. apply minutesUntil_spec.
  - intros Hnot. rewrite Hmin.
    destruct (strict_eq_num (GetOpt service "Computed") 1) eqn:Hflag.
    + by apply strict_eq_num_true in Hflag.
    + apply minutesUntil_spec.
  - rewrite Hmin. apply minutesUntil_not_negative.
Qed.

(** A live service scheduled at 601 s and expected at 181 s counts to the
    expected time. *)
Lemma normalizeGoTransit_ghost_minutes_witness :
  exists aps ap,
    normalizeGoTransit (fixed_host 1000) 0 go_live_payload = Returns aps
    /\ length aps = 1%nat
    /\ aps !! 0%nat = Some ap
    /\ isGhost ap = false
    /\ minutes_spec (Num 181000) 1000 (timeMinutes ap)
    /\ timeMinutes ap = Num 3.
Proof.
  destruct (normalizeGoTransit_ghost_minutes (fixed_host 1000) 0 go_live_payload
              [go_live_service])
    as (aps & Hrun & Hlen & Hat).
  - reflexivity.
  - reflexivity.
  - repeat constructor.
  - destruct (Hat 0%nat go_live_service eq_refl) as (ap & Hap & _ & Hone & _).
    destruct (Hone eq_refl) as (Hghost & Hcomp & _).
    exists aps, ap.
    split; [exact Hrun|]. split; [exact Hlen|]. split; [exact Hap|].
    split; [exact Hghost|]. split; [exact (Hcomp eq_refl)|].
    vm_compute in Hrun. injection Hrun as <-.
    vm_compute in Hap. injection Hap as <-. reflexivity.
Defined.

(** C10. When an entry's [ComputedDepartureTime] is absent (or otherwise
    falsy) and its [Computed] flag is 1, the prediction is not a ghost and
    its [timeMinutes] counts from the clock reading to the scheduled
    departure time. *)
Theorem normalizeGoTransit_computed_fallback h tick apiResponse services
    (i : nat) service :
  nullish apiResponse = false ->
  GetOpt (GetOpt apiResponse "data") "NextService" = VArr services ->
  Forall (fun s => nullish s = false) services ->
  services !! i = Some service ->
  truthy (GetOpt service "ComputedDepartureTime") = false ->
  GetOpt service "Computed" = VNum (Num 1) ->
  exists aps ap, normalizeGoTransit h tick apiResponse = Returns aps
    /\ aps !! i = Some ap
    /\ isGhost ap = false
    /\ minutes_spec (Date_getTime h (GetOpt service "ScheduledDepartureTime"))
                    (clock h (tick + i)) (timeMinutes ap).
Proof.
  intros Hr Hsv Hall Hi Habsent Hone.
  destruct (normalizeGoTransit_entries h tick apiResponse services Hr Hsv Hall)
    as (aps & Hrun & _ & Hat).
  destruct (Hat i service Hi) as (ap & Hap & Hgo).
  assert (Hobj : nullish service = false).
  { rewrite Forall_forall in Hall. apply Hall. by eapply list_elem_of_lookup_2. }
  destruct (goService_Returns h (clock h (tick + i)) service Hobj)
    as (ap' & Hgo' & Hghost & Hmin).
  rewrite Hgo in Hgo'. injection Hgo' as <-.
  exists aps, ap. split_and!; [done | done | |].
  - by rewrite Hghost, Hone.
  - rewrite Hmin, Hone, Habsent. simpl. apply minutesUntil_spec.
Qed.

Lemma normalizeGoTransit_computed_fallback_witness :
  exists aps ap, normalizeGoTransit (fixed_host 1000) 0 go_payload = Returns aps
    /\ aps !! 1%nat = Some ap
    /\ isGhost ap = false
    /\ minutes_spec (Num (-301000)) 1000 (timeMinutes ap).
Proof.
  destruct (normalizeGoTransit_computed_fallback (fixed_host 1000) 0 go_payload
              go_services 1
              (VObj [("Computed", VNum (Num 1));
                     ("ScheduledDepartureTime", VNum (Num (-301000)));
                     ("LineCode", VStr "LE")]))
    as (aps & ap & Hrun & Hap & Hghost & Hmin).
  - reflexivity.
  - reflexivity.
  - repeat constructor.
  - reflexivity.
  - reflexivity.
  - reflexivity.
  - exists aps, ap. split_and!; [exact Hrun | exact Hap | exact Hghost | exact Hmin].
Defined.

(** The scenario of the specification: scheduled only, leaving in five
    minutes; and a live service that has left counts zero minutes. *)
Example go_scenario :
  normalizeGoTransit (fixed_host 1000) 0 go_payload
  = Returns [ {| line := VStr "Lakeshore West"; destination := VStr "Union Station";
                 timeMinutes := Num 5; isGhost := true;
                 vehicleId := VUndefined; platform := VUndefined |};
              {| line := VStr "LE"; destination := VUndefined;
                 timeMinutes := Num 0; isGhost := false;
                 vehicleId := VUndefined; platform := VUndefined |} ].
Proof. reflexivity. Qed.

(** ** TTC *)

Lemma Get_Throws v k : nullish v = true -> Get v k = Throws.
Proof. by destruct v. Qed.

Lemma match_line_nonempty s tok : match_line s = Some tok -> is_empty tok = false.
Proof.
  unfold match_line. destruct s as [|c s]; simpl; [done|].
  destruct (is_digit c); simpl; [|done]. by intros [= <-].
Qed.

Lemma truthy_VStr s : truthy (VStr s) = negb (is_empty s).
Proof. by destruct s. Qed.

Lemma match_opt_leading v m :
  match_opt match_line v = Returns m -> m = leading_token v.
Proof. destruct v; simpl; intros Hm; unret; by simplify_eq. Qed.


(** What the innermost loop body returns, when it does. *)
Lemma ttcEta_Returns pred dir eta ap :
  ttcEta pred dir eta = Returns ap ->
  nullish dir = false /\ nullish eta = false
  /\ line ap = line_spec (GetOpt dir "title") (GetOpt pred "routeTag")
  /\ timeMinutes ap = or_zero (parseInt_value (GetOpt eta "minutes"))
  /\ isGhost ap = false
  /\ vehicleId ap = toString_opt (GetOpt eta "vehicle")
  /\ platform ap = VUndefined.
Proof.
  unfold ttcEta. intros Hrun.
  apply bind_Returns in Hrun as (title & Htitle & Hrun).
  apply Get_Returns in Htitle as [Hdir ->].
  apply bind_Returns in Hrun as (fromTitle & HfromTitle & Hrun).
  apply match_opt_leading in HfromTitle as ->.
  apply bind_Returns in Hrun as (lineMatch & HlineMatch & Hrun).
  apply bind_Returns in Hrun as (ln & Hln & Hrun). unret.
  apply bind_Returns in Hrun as (destMatch & _ & Hrun).
  apply bind_Returns in Hrun as (minutes & Hminutes & Hrun).
  apply Get_Returns in Hminutes as [Heta ->].
  apply bind_Returns in Hrun as (vehicle & Hvehicle & Hrun).
  apply Get_Returns in Hvehicle as [_ ->].
  unret. injection Hrun as <-. simpl.
  split_and!; try done.
  unfold line_spec.
  destruct (leading_token (GetOpt dir "title")) as [tok|] eqn:Htok.
  - injection HlineMatch as <-. cbn [capture] in Hln.
    assert (Hne : truthy (VStr tok) = true).
    { rewrite truthy_VStr. destruct (GetOpt dir "title"); simpl in Htok; try done.
      by rewrite (match_line_nonempty _ _ Htok). }
    rewrite Hne in Hln. by injection Hln as <-.
  - apply bind_Returns in HlineMatch as (routeTag & Htag & HlineMatch).
    apply Get_Returns in Htag as [Hpred ->].
    apply match_opt_leading in HlineMatch as ->.
    destruct (leading_token (GetOpt pred "routeTag")) as [tok|] eqn:Htag;
      cbn [capture] in Hln.
    + assert (Hne : truthy (VStr tok) = true).
      { rewrite truthy_VStr. destruct (GetOpt pred "routeTag"); simpl in Htag; try done.
        by rewrite (match_line_nonempty _ _ Htag). }
      rewrite Hne in Hln. by injection Hln as <-.
    + rewrite (Get_GetOpt pred) in Hln by done.
      cbn [truthy mbind result_bind] in Hln. injection Hln as <-. done.
Qed.


(** Every prediction of the TTC normalizer is made by the loop body, on an
    eta of a direction of a prediction of the payload. *)
Lemma normalizeTtc_origin json aps ap :
  normalizeTtc json = Returns aps -> ap ∈ aps ->
  exists pred dir eta,
    pred ∈ one_or_many (GetOpt json "predictions")
    /\ dir ∈ one_or_many (GetOpt pred "direction")
    /\ eta ∈ one_or_many (GetOpt dir "prediction")
    /\ ttcEta pred dir eta = Returns ap.
Proof.
  unfold normalizeTtc. intros Hrun Hap.
  apply bind_Returns in Hrun as (predictions & Hp & Hrun).
  apply Get_Returns in Hp as [_ ->].
  destruct (truthy (GetOpt json "predictions")); simpl in Hrun.
  2:{ unfold mret, result_ret in Hrun. simplify_eq. by apply elem_of_nil in Hap. }
  destruct (collect_elem_of _ _ _ _ Hrun Hap) as (pred & ys & Hpred & Hys & Hap1).
  unfold ttcPrediction in Hys.
  apply bind_Returns in Hys as (direction & Hd & Hys).
  apply Get_Returns in Hd as [_ ->].
  destruct (truthy (GetOpt pred "direction")); simpl in Hys.
  2:{ unfold mret, result_ret in Hys. simplify_eq. by apply elem_of_nil in Hap1. }
  destruct (collect_elem_of _ _ _ _ Hys Hap1) as (dir & zs & Hdir & Hzs & Hap2).
  unfold ttcDirection in Hzs.
  apply bind_Returns in Hzs as (prediction & He & Hzs).
  apply Get_Returns in He as [_ ->].
  destruct (truthy (GetOpt dir "prediction")); simpl in Hzs.
  2:{ unfold mret, result_ret in Hzs. simplify_eq. by apply elem_of_nil in Hap2. }
  destruct (collect_elem_of _ _ _ _ Hzs Hap2) as (eta & ws & Heta & Hws & Hap3).
  apply bind_Returns in Hws as (ap' & Hap' & Hws).
  unfold mret, result_ret in Hws. injection Hws as <-.
  apply list_elem_of_singleton in Hap3 as ->.
  exists pred, dir, eta. by split_and!.
Qed.

(** ** TTC subway *)

Lemma collect_times item_line directionText times :
  collect (fun minutes =>
             if isNaN minutes then mret []
             else mret [subwayPrediction item_line directionText minutes]) times
  = Returns (List.map (subwayPrediction item_line directionText)
                      (List.filter (fun m => negb (isNaN m)) times)).
Proof.
  induction times as [|m times IH]; simpl; [done|].
  rewrite IH. by destruct (isNaN m).
Qed.

Lemma filter_map_parsed (toks : list string) :
  List.filter (fun m => negb (isNaN m)) (List.map (fun t => parseInt (trim t)) toks)
  = List.map (fun t => parseInt (trim t)) (List.filter parses toks).
Proof.
  induction toks as [|t toks IH]; simpl; [done|].
  unfold parses at 1. destruct (isNaN (parseInt (trim t))); simpl; by rewrite IH.
Qed.

(** What the loop body pushes for an item whose [nextTrains] is a
    string. *)
Lemma subwayItem_string item s :
  GetOpt item "nextTrains" = VStr s ->
  subwayItem item
  = Returns (List.map (subwayPrediction (GetOpt item "line") (GetOpt item "directionText"))
                      (List.map (fun t => parseInt (trim t))
                                (List.filter parses (split_comma s)))).
Proof.
  intros Hs. destruct item as [| |b|n|t|l|fs]; try done.
  unfold subwayItem, GetOpt, Get in *. cbn [mbind result_bind]. rewrite Hs.
  destruct s as [|c s]; [reflexivity|].
  cbn [truthy String.eqb negb mbind result_bind].
  rewrite collect_times. unfold nextTrainTimes. by rewrite filter_map_parsed.
Qed.

Lemma subwayItem_falsy item :
  nullish item = false -> truthy (GetOpt item "nextTrains") = false ->
  subwayItem item = Returns [].
Proof.
  intros Hobj Hf. unfold subwayItem. rewrite !(Get_GetOpt item) by done.
  cbn [mbind result_bind]. by rewrite Hf.
Qed.

Lemma subwayItem_origin item aps ap :
  subwayItem item = Returns aps -> ap ∈ aps ->
  exists s tok, GetOpt item "nextTrains" = VStr s
    /\ tok ∈ split_comma s
    /\ timeMinutes ap = parseInt (trim tok)
    /\ isNaN (timeMinutes ap) = false
    /\ isGhost ap = false.
Proof.
  intros Hrun Hap.
  destruct (GetOpt item "nextTrains") as [| |b|n|s|l|fs] eqn:Hnt.
  5:{ rewrite (subwayItem_string item s Hnt) in Hrun. injection Hrun as <-.
      apply list_elem_of_In, in_map_iff in Hap as (m & <- & Hm).
      apply in_map_iff in Hm as (tok & <- & Htok).
      apply filter_In in Htok as [Htok Hparses].
      exists s, tok. split_and!; try done.
      - by apply list_elem_of_In.
      - simpl. unfold parses in Hparses. by destruct (isNaN (parseInt (trim tok))). }
  all: unfold subwayItem in Hrun;
    apply bind_Returns in Hrun as (nt & Hget & Hrun);
    apply Get_Returns in Hget as [_ ->]; rewrite Hnt in Hrun; simpl in Hrun.
  all: repeat match type of Hrun with
         | context [if ?b then _ else _] => destruct b; simpl in Hrun
         end; unret; simplify_eq; by apply elem_of_nil in Hap.
Qed.

(** ** GO Transit, prediction by prediction *)

Lemma goMap_origin h tick services aps ap :
  goMap h tick services = Returns aps -> ap ∈ aps ->
  exists now service, service ∈ services /\ goService h now service = Returns ap.
Proof.
  revert tick aps. induction services as [|s l IH]; simpl; intros tick aps Hrun Hap.
  - unret. simplify_eq. by apply elem_of_nil in Hap.
  - apply bind_Returns in Hrun as (ap1 & Hap1 & Hrun).
    apply bind_Returns in Hrun as (rest & Hrest & Hrun).
    unret. injection Hrun as <-.
    apply elem_of_cons in Hap as [->|Hap].
    + exists (clock h tick), s. split; [left | done].
    + destruct (IH _ _ Hrest Hap) as (now & service & Hin & Hgo).
      exists now, service. split; [by right | done].
Qed.

Lemma normalizeGoTransit_origin h tick apiResponse aps ap :
  normalizeGoTransit h tick apiResponse = Returns aps -> ap ∈ aps ->
  exists now service, goService h now service = Returns ap.
Proof.
  unfold normalizeGoTransit. intros Hrun Hap.
  apply bind_Returns in Hrun as (data & _ & Hrun).
  destruct (GetOpt data "NextService") as [| |b|n|s|l|fs]; simpl in Hrun;
    try (repeat match type of Hrun with
                | context [if ?b then _ else _] => destruct b; simpl in Hrun
                end; unret; simplify_eq; by apply elem_of_nil in Hap).
  destruct (goMap_origin _ _ _ _ _ Hrun Hap) as (now & service & _ & Hgo). eauto.
Qed.

Lemma goService_not_negative h now service ap :
  goService h now service = Returns ap -> not_negative (timeMinutes ap).
Proof.
  intros Hgo. destruct (nullish service) eqn:Hobj.
  - by rewrite goService_Throws in Hgo.
  - destruct (goService_Returns h now service Hobj) as (ap' & Hgo' & _ & Hmin).
    rewrite Hgo in Hgo'. injection Hgo' as <-. rewrite Hmin.
    apply minutesUntil_not_negative.
Qed.

Lemma or_zero_number n :
  isNaN (or_zero n) = false /\ (not_negative n -> not_negative (or_zero n)).
Proof.
  destruct n as [|z]; simpl.
  - split; [done|]. intros _ z Hz. unfold or_zero in Hz. simpl in Hz. simplify_eq. lia.
  - unfold or_zero. simpl. destruct (z =? 0) eqn:Hz; simpl; split; try done.
    intros _ z' Hz'. simplify_eq. lia.
Qed.

(** ** Sign of [timeMinutes] *)

(** C2, as stated, fails: the TTC and subway normalizers hand the parsed
    minutes on as they are, so minutes that parse below zero come out
    negative. *)
Lemma timeMinutes_negative_counterexample :
  ~ (forall json aps ap, normalizeTtc json = Returns aps -> ap ∈ aps ->
       exists m, timeMinutes ap = Num m /\ 0 <= m)
  /\ ~ (forall response aps ap, normalizeTtcSubway response = Returns aps -> ap ∈ aps ->
          exists m, timeMinutes ap = Num m /\ 0 <= m).
Proof.
  split.
  - intros Hall.
    destruct (Hall ttc_payload
                [ {| line := VStr "ABC"; destination := VStr "Distillery Loop";
                     timeMinutes := Num (-5); isGhost := false;
                     vehicleId := VStr "4402"; platform := VUndefined |} ]
                _ eq_refl (list_elem_of_here _ _)) as (m & Hm & Hpos).
    simpl in Hm. injection Hm as <-. lia.
  - intros Hall.
    destruct (Hall (VArr [VObj [("nextTrains", VStr "-3")]])
                [ subwayPrediction VUndefined VUndefined (Num (-3)) ]
                _ eq_refl (list_elem_of_here _ _)) as (m & Hm & Hpos).
    simpl in Hm. injection Hm as <-. lia.
Qed.

(** C2, amended. A prediction of the GO normalizer never has negative
    [timeMinutes] (it is NaN when the departure date is invalid). A
    prediction of the TTC normalizer has the parsed [minutes] of its eta,
    or 0 when they do not parse or are 0: a number, negative only when the
    parsed minutes are. A prediction of the subway normalizer has the
    parsed value of one token of [nextTrains], a number. *)
Theorem timeMinutes_sign h tick payload aps ap :
  ap ∈ aps ->
  (normalizeGoTransit h tick payload = Returns aps ->
     not_negative (timeMinutes ap))
  /\ (normalizeTtc payload = Returns aps ->
       exists pred dir eta,
         pred ∈ one_or_many (GetOpt payload "predictions")
         /\ dir ∈ one_or_many (GetOpt pred "direction")
         /\ eta ∈ one_or_many (GetOpt dir "prediction")
         /\ timeMinutes ap = or_zero (parseInt_value (GetOpt eta "minutes"))
         /\ isNaN (timeMinutes ap) = false
         /\ (not_negative (parseInt_value (GetOpt eta "minutes")) ->
               not_negative (timeMinutes ap)))
  /\ (normalizeTtcSubway payload = Returns aps ->
       exists items item s tok,
         iterate payload = Returns items
         /\ item ∈ items
         /\ GetOpt item "nextTrains" = VStr s
         /\ tok ∈ split_comma s
         /\ timeMinutes ap = parseInt (trim tok)
         /\ isNaN (timeMinutes ap) = false).
Proof.
  intros Hap. split_and!.
  - intros Hrun.
    destruct (normalizeGoTransit_origin _ _ _ _ _ Hrun Hap) as (now & service & Hgo).
    by eapply goService_not_negative.
  - intros Hrun.
    destruct (normalizeTtc_origin _ _ _ Hrun Hap)
      as (pred & dir & eta & Hpred & Hdir & Heta & Hbody).
    apply ttcEta_Returns in Hbody as (_ & _ & _ & Hmin & _).
    exists pred, dir, eta. rewrite Hmin.
    pose proof (or_zero_number (parseInt_value (GetOpt eta "minutes"))) as [Hnum Hsign].
    by split_and!.
  - unfold normalizeTtcSubway. intros Hrun.
    apply bind_Returns in Hrun as (items & Hitems & Hrun).
    destruct (collect_elem_of _ _ _ _ Hrun Hap) as (item & zs & Hitem & Hzs & Hin).
    destruct (subwayItem_origin _ _ _ Hzs Hin) as (s & tok & Hs & Htok & Hmin & Hnum & _).
    exists items, item, s, tok. by split_and!.
Qed.

Lemma timeMinutes_sign_witness :
  not_negative (Num 5)
  /\ exists eta, timeMinutes
       {| line := VStr "ABC"; destination := VStr "Distillery Loop";
          timeMinutes := Num (-5); isGhost := false;
          vehicleId := VStr "4402"; platform := VUndefined |}
     = or_zero (parseInt_value (GetOpt eta "minutes")).
Proof.
  split.
  - apply (timeMinutes_sign (fixed_host 1000) 0 go_payload
             [ {| line := VStr "Lakeshore West"; destination := VStr "Union Station";
                  timeMinutes := Num 5; isGhost := true;
                  vehicleId := VUndefined; platform := VUndefined |};
               {| line := VStr "LE"; destination := VUndefined;
                  timeMinutes := Num 0; isGhost := false;
                  vehicleId := VUndefined; platform := VUndefined |} ]
             {| line := VStr "Lakeshore West"; destination := VStr "Union Station";
                timeMinutes := Num 5; isGhost := true;
                vehicleId := VUndefined; platform := VUndefined |}).
    + apply list_elem_of_here.
    + reflexivity.
  - destruct (timeMinutes_sign (fixed_host 1000) 0 ttc_payload
             [ {| line := VStr "ABC"; destination := VStr "Distillery Loop";
                  timeMinutes := Num (-5); isGhost := false;
                  vehicleId := VStr "4402"; platform := VUndefined |} ]
             {| line := VStr "ABC"; destination := VStr "Distillery Loop";
                timeMinutes := Num (-5); isGhost := false;
                vehicleId := VStr "4402"; platform := VUndefined |}
             (list_elem_of_here _ _)) as (_ & Httc & _).
    destruct (Httc eq_refl) as (_ & _ & eta & _ & _ & _ & Hmin & _).
    exists eta. exact Hmin.
Defined.

(** ** Subway counts *)

(** C6. For a response whose items are objects with a string (or no)
    [nextTrains], the subway normalizer returns the predictions of its
    items one after the other; an item gives as many predictions as its
    [nextTrains] has comma-separated tokens that parse, their minutes
    being the parsed values in order, so a token that does not parse
    leaves no entry; every prediction has [isGhost = false]. *)
Theorem normalizeTtcSubway_counts items :
  Forall (fun item => subway_item_ok item = true) items ->
  exists groups,
    normalizeTtcSubway (VArr items) = Returns (concat groups)
    /\ Forall2 (fun item group =>
         subwayItem item = Returns group
         /\ List.map timeMinutes group = item_minutes item
         /\ (forall s, GetOpt item "nextTrains" = VStr s ->
               length group = length (List.filter parses (split_comma s)))
         /\ Forall (fun ap => isGhost ap = false /\ isNaN (timeMinutes ap) = false) group)
       items groups.
Proof.
  unfold normalizeTtcSubway. simpl.
  induction 1 as [|item items Hitem _ (groups & Hrun & Hall)].
  - exists []. split; [done | constructor].
  - assert (exists group, subwayItem item = Returns group
              /\ List.map timeMinutes group = item_minutes item
              /\ (forall s, GetOpt item "nextTrains" = VStr s ->
                    length group = length (List.filter parses (split_comma s)))
              /\ Forall (fun ap => isGhost ap = false /\ isNaN (timeMinutes ap) = false) group)
      as (group & Hgroup & Hspec).
    { unfold subway_item_ok in Hitem. apply andb_prop in Hitem as [Hobj Hnt].
      apply negb_true_iff in Hobj.
      destruct (GetOpt item "nextTrains") as [| |b|n|s|l|fs] eqn:Hget.
      5:{ eexists. split; [by apply subwayItem_string|]. split_and!.
          - unfold item_minutes. rewrite Hget, map_map. simpl.
            by rewrite map_id.
          - intros s' [= <-]. by rewrite !length_map.
          - apply Forall_forall. intros ap Hap.
            apply list_elem_of_In, in_map_iff in Hap as (m & <- & Hm). simpl.
            apply in_map_iff in Hm as (tok & <- & Htok).
            apply filter_In in Htok as [_ Hparses]. unfold parses in Hparses.
            split; [done|]. by destruct (isNaN (parseInt (trim tok))). }
      all: apply negb_true_iff in Hnt; exists [];
        (split; [apply subwayItem_falsy; [done | by rewrite Hget] |]);
        unfold item_minutes; rewrite Hget; split_and!; done. }
    exists (group :: groups). simpl. rewrite Hgroup, Hrun. simpl.
    split; [done | by constructor].
Qed.

Lemma normalizeTtcSubway_counts_witness :
  exists groups,
    normalizeTtcSubway subway_payload = Returns (concat groups)
    /\ List.map (List.map timeMinutes) groups = [[Num 3; Num 7; Num 12]].
Proof.
  destruct (normalizeTtcSubway_counts
              [VObj [("nextTrains", VStr "3, 7, x, 12");
                     ("directionText", VStr "Northbound");
                     ("line", VNum (Num 1))]])
    as (groups & Hrun & Hall).
  - repeat constructor.
  - exists groups. split; [exact Hrun|].
    inversion Hall as [|item group items' groups' (_ & Hmin & _) Hrest]; subst.
    inversion Hrest; subst. simpl. by rewrite Hmin.
Defined.

(** The scenario of the specification: three predictions, at 3, 7 and 12
    minutes. *)
Example subway_scenario :
  normalizeTtcSubway subway_payload
  = Returns (List.map (subwayPrediction (VNum (Num 1)) (VStr "Northbound"))
                      [Num 3; Num 7; Num 12]).
Proof. reflexivity. Qed.

(** ** The line of a TTC prediction *)

Lemma take_drop_while p s : (take_while p s ++ drop_while p s)%string = s.
Proof.
  induction s as [|c s IH]; simpl; [done|].
  destruct (p c); [|done].
  change (String c (take_while p s ++ drop_while p s)%string = String c s).
  by rewrite IH.
Qed.

Lemma take_while_forall p s : string_forall p (take_while p s) = true.
Proof.
  induction s as [|c s IH]; simpl; [done|].
  destruct (p c) eqn:Hc; simpl; [by rewrite Hc, IH | done].
Qed.


Lemma drop_while_weaker (p q : ascii -> bool) s :
  (forall c, p c = true -> q c = true) ->
  drop_while q (drop_while p s) = drop_while q s.
Proof.
  intros Hpq. induction s as [|c s IH]; simpl; [done|].
  destruct (p c) eqn:Hc; [by rewrite (Hpq c Hc) | done].
Qed.










(** A title that starts with a route number gives the line. *)
Example ttc_line_from_title :
  line_spec (VStr "504A - King towards Distillery Loop") (VStr "504") = VStr "504A".
Proof. reflexivity. Qed.

(** ** Payloads that lack substructures *)

Lemma normalizeGoTransit_no_list h tick apiResponse :
  nullish apiResponse = false ->
  isArray (GetOpt (GetOpt apiResponse "data") "NextService") = false ->
  normalizeGoTransit h tick apiResponse = Returns [].
Proof.
  intros Hobj Harr. unfold normalizeGoTransit.
  rewrite (Get_GetOpt apiResponse) by done. cbn [mbind result_bind].
  rewrite Harr. rewrite orb_true_r. done.
Qed.

Lemma normalizeGoTransit_total h tick apiResponse :
  go_ok apiResponse = true ->
  exists aps, normalizeGoTransit h tick apiResponse = Returns aps.
Proof.
  unfold go_ok. intros Hok. apply andb_prop in Hok as [Hobj Hlist].
  apply negb_true_iff in Hobj.
  destruct (GetOpt (GetOpt apiResponse "data") "NextService") as [| |b|n|s|l|fs] eqn:Hsv.
  6:{ destruct (normalizeGoTransit_entries h tick apiResponse l Hobj Hsv)
        as (aps & Hrun & _).
      - apply Forall_forall. intros s Hs.
        rewrite forallb_forall in Hlist.
        apply negb_true_iff, Hlist. by apply list_elem_of_In.
      - by exists aps. }
  all: exists []; apply normalizeGoTransit_no_list; [done | by rewrite Hsv].
Qed.








Lemma subwayItem_total item :
  subway_item_ok item = true -> exists aps, subwayItem item = Returns aps.
Proof.
  unfold subway_item_ok. intros Hok. apply andb_prop in Hok as [Hobj Hnt].
  apply negb_true_iff in Hobj.
  destruct (GetOpt item "nextTrains") as [| |b|n|s|l|fs] eqn:Hget.
  5:{ eexists. by apply subwayItem_string. }
  all: apply negb_true_iff in Hnt; exists [];
    apply subwayItem_falsy; [done | by rewrite Hget].
Qed.

Lemma normalizeTtcSubway_total response :
  subway_ok response = true -> exists aps, normalizeTtcSubway response = Returns aps.
Proof.
  unfold subway_ok, normalizeTtcSubway.
  destruct response as [| |b|n|s|l|fs]; try done; intros Hok; simpl.
  - apply collect_total. apply Forall_forall. intros item Hitem.
    apply list_elem_of_In, in_map_iff in Hitem as (c & <- & _).
    exists []. by apply subwayItem_falsy.
  - apply collect_total. apply Forall_forall. intros item Hitem.
    rewrite forallb_forall in Hok. apply subwayItem_total, Hok.
    by apply list_elem_of_In.
Qed.




(** ** Dependence on the clock *)

Lemma goService_same_date h1 h2 now service :
  (forall v, Date_getTime h1 v = Date_getTime h2 v) ->
  goService h1 now service = goService h2 now service.
Proof.
  intros Hdate. unfold goService, computedTime, scheduledTime.
  destruct (nullish service) eqn:Hobj.
  - by rewrite !(Get_Throws service).
  - rewrite !(Get_GetOpt service) by done. cbn [mbind result_bind mret result_ret].
    by rewrite !Hdate.
Qed.

Lemma goMap_same_clock h1 h2 t1 t2 services :
  (forall v, Date_getTime h1 v = Date_getTime h2 v) ->
  (forall i : nat, clock h1 (t1 + i) = clock h2 (t2 + i)) ->
  goMap h1 t1 services = goMap h2 t2 services.
Proof.
  intros Hdate. revert t1 t2.
  induction services as [|s l IH]; intros t1 t2 Hclock; simpl; [done|].
  pose proof (Hclock 0%nat) as H0. rewrite !Nat.add_0_r in H0. rewrite H0.
  rewrite (goService_same_date h1 h2) by done.
  rewrite (IH (S t1) (S t2)); [done|].
  intros i. specialize (Hclock (S i)).
  by replace (t1 + S i)%nat with (S t1 + i)%nat in Hclock by lia;
     replace (t2 + S i)%nat with (S t2 + i)%nat in Hclock by lia.
Qed.

Lemma goMap_same_but_minutes h1 h2 t1 t2 services :
  same_but_minutes (goMap h1 t1 services) (goMap h2 t2 services).
Proof.
  revert t1 t2. induction services as [|s l IH]; intros t1 t2; simpl.
  - constructor.
  - destruct (nullish s) eqn:Hobj.
    + by rewrite !goService_Throws.
    + specialize (IH (S t1) (S t2)).
      destruct s as [| |b|n|str|items|fs]; try done; simpl;
        destruct (goMap h1 (S t1) l), (goMap h2 (S t2) l); simpl in *; try done;
        by constructor.
Qed.

(** C9, as stated, fails for the GO normalizer: it reads the clock, so the
    same payload gives other minutes two readings later. *)
Lemma normalizeGoTransit_clock_counterexample :
  run goNormalizer ticking_host 0 go_payload
  <> run goNormalizer ticking_host 2 go_payload.
Proof. discriminate. Qed.

(** C9, amended. The TTC and subway normalizers give equal results on equal
    payloads, whenever and on whatever host they are called. The GO
    normalizer gives equal results on equal payloads when the date parser
    is the same and the clock readings of the two calls agree; in any case
    its two results agree on every field other than [timeMinutes]. *)
Theorem normalizers_deterministic h1 h2 t1 t2 payload :
  run ttcNormalizer h1 t1 payload = run ttcNormalizer h2 t2 payload
  /\ run subwayNormalizer h1 t1 payload = run subwayNormalizer h2 t2 payload
  /\ ((forall v, Date_getTime h1 v = Date_getTime h2 v) ->
      (forall i : nat, clock h1 (t1 + i) = clock h2 (t2 + i)) ->
      run goNormalizer h1 t1 payload = run goNormalizer h2 t2 payload)
  /\ same_but_minutes (run goNormalizer h1 t1 payload)
                      (run goNormalizer h2 t2 payload).
Proof.
  split_and!; try reflexivity.
  - intros Hdate Hclock. simpl. unfold normalizeGoTransit.
    destruct (Get payload "data") as [|data]; simpl; [done|].
    destruct (GetOpt data "NextService"); simpl; try done.
    by apply goMap_same_clock.
  - simpl. unfold normalizeGoTransit.
    destruct (Get payload "data") as [|data]; simpl; [done|].
    destruct (GetOpt data "NextService") as [| |b|n|s|l|fs]; simpl;
      try (repeat match goal with
                  | |- context [if ?b then _ else _] => destruct b
                  end; by constructor).
    apply goMap_same_but_minutes.
Qed.

Lemma normalizers_deterministic_witness :
  run goNormalizer (fixed_host 1000) 0 go_payload
  = run goNormalizer (fixed_host 1000) 7 go_payload.
Proof.
  apply (normalizers_deterministic (fixed_host 1000) (fixed_host 1000) 0 7 go_payload).
  - reflexivity.
  - reflexivity.
Defined.

End AdapterFacts.

(** * Properties of the stop store *)

Module StoreFacts.
Import JS StopStore.

(** ** Sorting *)

Section Sorting.
Context {A : Type} (gt : A -> A -> bool).

Lemma insert_by_Permutation x l : insert_by gt x l ≡ₚ x :: l.
Proof.
  induction l as [|y l IH]; simpl; [done|].
  destruct (gt x y); [|done]. rewrite IH. apply Permutation_swap.
Qed.

Lemma sort_by_cons x l : sort_by gt (x :: l) = insert_by gt x (sort_by gt l).
Proof. reflexivity. Qed.

Lemma sort_by_Permutation l : sort_by gt l ≡ₚ l.
Proof.
  induction l as [|x l IH]; [done|].
  by rewrite sort_by_cons, insert_by_Permutation, IH.
Qed.

Lemma sort_by_elem_of x l : x ∈ sort_by gt l <-> x ∈ l.
Proof. by rewrite sort_by_Permutation. Qed.

Lemma sort_by_length l : length (sort_by gt l) = length l.
Proof. by rewrite sort_by_Permutation. Qed.

(** On elements that the comparator orders consistently with a transitive
    relation, the result is sorted. *)
Context (R : A -> A -> Prop) (P : A -> Prop).
Hypothesis R_trans : forall x y z, R x y -> R y z -> R x z.
Hypothesis not_gt : forall x y, P x -> P y -> gt x y = false -> R x y.
Hypothesis is_gt : forall x y, P x -> P y -> gt x y = true -> R y x.

Lemma insert_by_sorted x l :
  P x -> Forall P l -> StronglySorted R l -> StronglySorted R (insert_by gt x l).
Proof.
  intros Hx Hl Hsorted. induction Hsorted as [|y l Hsorted IH Hy]; simpl.
  - repeat constructor.
  - apply Forall_cons in Hl as [Py Pl].
    destruct (gt x y) eqn:Hgt.
    + constructor; [by apply IH|].
      rewrite insert_by_Permutation. constructor; [by apply is_gt | done].
    + constructor; [by constructor|].
      assert (Hxy : R x y) by (by apply not_gt).
      constructor; [done|]. eapply Forall_impl; [exact Hy|].
      intros z Hz. by eapply R_trans.
Qed.

Lemma sort_by_sorted l : Forall P l -> StronglySorted R (sort_by gt l).
Proof.
  induction 1 as [|x l Hx Hl IH]; [constructor|].
  rewrite sort_by_cons. apply insert_by_sorted; [done | | done].
  by rewrite sort_by_Permutation.
Qed.

End Sorting.

Lemma NoDup_bool_filter {A : Type} (f : A -> bool) (l : list A) :
  NoDup l -> NoDup (List.filter f l).
Proof.
  induction 1 as [|x l Hx Hl IH]; simpl; [constructor|].
  destruct (f x); [|done]. constructor; [|done].
  rewrite list_elem_of_In, filter_In, <- list_elem_of_In. by intros [? _].
Qed.

Section StoreProps.
Context {num : Type} `{!Double num}.
Implicit Types (db : gmap string (StoredStop (num := num))).
Implicit Types (stops : list (UnifiedStop (num := num))).

(** ** Saving and reading back *)

Lemma saveStops_snoc db stops s :
  saveStops db (stops ++ [s]) = put (saveStops db stops) (stored s).
Proof. unfold saveStops. by rewrite foldl_snoc. Qed.

(** Under a key, a batch leaves its last stop with that key, or what was
    there before. *)
Lemma saveStops_lookup db stops i :
  saveStops db stops !! i
  = match latest i stops with
    | Some s => Some (stored s)
    | None => db !! i
    end.
Proof.
  induction stops as [|s stops IH] using rev_ind; [done|].
  rewrite saveStops_snoc. unfold put, latest. simpl. rewrite filter_app.
  destruct (decide (id s = i)) as [Heq|Hne].
  - rewrite Heq, lookup_insert_eq.
    rewrite (filter_cons_True _ s []) by done. by rewrite filter_nil, last_snoc.
  - rewrite lookup_insert_ne by done.
    rewrite (filter_cons_False _ s []) by done. rewrite filter_nil, app_nil_r.
    exact IH.
Qed.

Lemma latest_Some i stops s :
  latest i stops = Some s -> id s = i /\ s ∈ stops.
Proof.
  unfold latest. intros Hlast. apply last_Some_elem_of in Hlast.
  by apply list_elem_of_filter in Hlast.
Qed.

Lemma latest_of_saved stops s :
  s ∈ stops -> exists s', latest (id s) stops = Some s'.
Proof.
  intros Hs. unfold latest.
  destruct (last (filter (fun s0 => id s0 = id s) stops)) as [s'|] eqn:Hlast;
    [by eexists|].
  apply last_None in Hlast.
  assert (Hin : s ∈ filter (fun s0 => id s0 = id s) stops)
    by (by apply list_elem_of_filter).
  rewrite Hlast in Hin. by apply elem_of_nil in Hin.
Qed.

Lemma same_id_same_stop stops s s' :
  NoDup (id <$> stops) -> s ∈ stops -> s' ∈ stops -> id s' = id s -> s' = s.
Proof.
  induction stops as [|x stops IH]; simpl; intros Hnd Hs Hs' Hid.
  - by apply elem_of_nil in Hs.
  - apply NoDup_cons in Hnd as [Hx Hnd].
    apply elem_of_cons in Hs as [->|Hs]; apply elem_of_cons in Hs' as [->|Hs'].
    + done.
    + destruct Hx. rewrite <- Hid. by apply list_elem_of_fmap_2.
    + destruct Hx. rewrite Hid. by apply list_elem_of_fmap_2.
    + by apply IH.
Qed.

(** ** Clearing an agency *)

Lemma foldl_delete_lookup (l : list (string * StoredStop (num := num))) db k :
  foldl (fun d e => delete e.1 d) db l !! k
  = if decide (k ∈ l.*1) then None else db !! k.
Proof.
  revert db. induction l as [|e l IH]; intros db.
  - destruct (decide (k ∈ ([] : list (string * StoredStop)).*1)) as [Hin|_]; [|done].
    by apply elem_of_nil in Hin.
  - change (foldl (fun d e0 => delete e0.1 d) (delete e.1 db) l !! k
            = if decide (k ∈ e.1 :: l.*1) then None else db !! k).
    rewrite IH. destruct (decide (k ∈ l.*1)) as [Hin|Hout].
    + rewrite decide_True; [done | by right].
    + destruct (decide (k = e.1)) as [->|Hne].
      * rewrite lookup_delete_eq. rewrite decide_True; [done | by left].
      * rewrite lookup_delete_ne by done.
        rewrite decide_False; [done|]. by intros [?|?]%elem_of_cons.
Qed.

Lemma agencyIndex_only_elem db a e :
  e ∈ agencyIndex_only db a <-> db !! e.1 = Some e.2 /\ agency (fields e.2) = a.
Proof.
  unfold agencyIndex_only, entries.
  rewrite sort_by_elem_of, list_elem_of_In, filter_In, <- list_elem_of_In.
  rewrite bool_decide_eq_true. destruct e as [k r]. by rewrite elem_of_map_to_list.
Qed.

Lemma clearAgency_lookup_Some db a k r :
  clearAgency db a !! k = Some r <-> db !! k = Some r /\ agency (fields r) <> a.
Proof.
  unfold clearAgency. rewrite foldl_delete_lookup.
  destruct (decide (k ∈ (agencyIndex_only db a).*1)) as [Hin|Hout].
  - apply list_elem_of_fmap in Hin as ([k' r'] & -> & Hin).
    apply agencyIndex_only_elem in Hin as [Hlook Hag]. simpl in *.
    split; [done|]. intros [Hr Hne]. by simplify_eq.
  - split.
    + intros Hr. split; [done|]. intros Hag. destruct Hout.
      apply list_elem_of_fmap. exists (k, r). split; [done|].
      by apply agencyIndex_only_elem.
    + by intros [Hr _].
Qed.

Lemma getAgencyCount_filter db a :
  getAgencyCount db a
  = length (List.filter (fun e => bool_decide (agency (fields e.2) = a)) (entries db)).
Proof. unfold getAgencyCount, agencyIndex_only. apply sort_by_length. Qed.

Lemma entries_filter_elem db a e :
  e ∈ List.filter (fun e => bool_decide (agency (fields e.2) = a)) (entries db)
  <-> db !! e.1 = Some e.2 /\ agency (fields e.2) = a.
Proof.
  unfold entries. rewrite list_elem_of_In, filter_In, <- list_elem_of_In.
  rewrite bool_decide_eq_true. destruct e as [k r]. by rewrite elem_of_map_to_list.
Qed.

(** C4, amended. After [saveStops], [getStop] under the key of a saved
    stop returns the last stop of the list that carries this key, with its
    code, agency, name, lat and lon, and both distances zero; when the
    keys of the list are pairwise distinct, this is the saved stop
    itself. *)
Theorem saveStops_getStop db stops s :
  s ∈ stops ->
  exists s',
    latest (id s) stops = Some s'
    /\ id s' = id s
    /\ getStop (saveStops db stops) (id s) = Some (fresh s')
    /\ stop (fresh s') = s'
    /\ distance (fresh s') = nzero
    /\ realDistance (fresh s') = nzero
    /\ (NoDup (id <$> stops) -> s' = s).
Proof.
  intros Hs. destruct (latest_of_saved stops s Hs) as [s' Hlatest].
  destruct (latest_Some _ _ _ Hlatest) as [Hid Hin].
  exists s'. split_and!; try done.
  - unfold getStop. by rewrite saveStops_lookup, Hlatest.
  - intros Hnd. by apply (same_id_same_stop stops).
Qed.

(** C5. [clearAgency X] leaves no record of agency [X], leaves the count of
    every other agency as it was, and leaves under every key the record
    that was there when it belongs to another agency, and nothing
    otherwise. *)
Theorem clearAgency_frame db X Y :
  Y <> X ->
  getAgencyCount (clearAgency db X) X = 0%nat
  /\ getAgencyCount (clearAgency db X) Y = getAgencyCount db Y
  /\ (forall k r, clearAgency db X !! k = Some r
                  <-> db !! k = Some r /\ agency (fields r) <> X).
Proof.
  intros Hne. split_and!.
  - rewrite getAgencyCount_filter.
    destruct (List.filter _ (entries (clearAgency db X))) as [|e l] eqn:Hl; [done|].
    assert (He : e ∈ e :: l) by left. rewrite <- Hl in He.
    apply entries_filter_elem in He as [Hlook Hag].
    apply clearAgency_lookup_Some in Hlook as [_ Hnot]. done.
  - rewrite !getAgencyCount_filter. apply Permutation_length.
    apply NoDup_Permutation.
    + apply NoDup_bool_filter, NoDup_map_to_list.
    + apply NoDup_bool_filter, NoDup_map_to_list.
    + intros e. rewrite !entries_filter_elem, clearAgency_lookup_Some.
      split; [by intros [[? ?] ?] | intros [? Hag]].
      split_and!; try done. by rewrite Hag.
  - apply clearAgency_lookup_Some.
Qed.

End StoreProps.

(** ** Range queries *)

Section RangeQuery.
Context {num : Type} `{!Double num} `{!DoubleLaws}.
Variable distanceOfTwoCoordinates : num * num -> num * num -> num.
Implicit Types (db : gmap string (StoredStop (num := num))).

Lemma latIndex_bound_elem db lower upper e :
  e ∈ latIndex_bound db lower upper
  <-> db !! e.1 = Some e.2
      /\ nnan (lat (fields e.2)) = false
      /\ nle lower (lat (fields e.2)) = true
      /\ nle (lat (fields e.2)) upper = true.
Proof.
  unfold latIndex_bound, entries.
  rewrite sort_by_elem_of, list_elem_of_In, filter_In, <- list_elem_of_In.
  rewrite !andb_true_iff, negb_true_iff. destruct e as [k r].
  rewrite elem_of_map_to_list. simpl. tauto.
Qed.

Lemma visit_elem qlat qlon range lowerLon upperLon agencyFilter r w :
  w ∈ visit distanceOfTwoCoordinates qlat qlon range lowerLon upperLon agencyFilter r ->
  w = withDistance r (planar qlat qlon (fields r))
        (distanceOfTwoCoordinates (qlat, qlon) (lat (fields r), lon (fields r)))
  /\ nle lowerLon (lon (fields r)) = true
  /\ nle (lon (fields r)) upperLon = true
  /\ agency_matches agencyFilter (agency (fields r)) = true
  /\ nle (planar qlat qlon (fields r)) range = true.
Proof.
  unfold visit, planar.
  destruct (nle lowerLon (lon (fields r))) eqn:Hlo; simpl;
    [|by intros ?%elem_of_nil].
  destruct (nle (lon (fields r)) upperLon) eqn:Hhi; simpl;
    [|by intros ?%elem_of_nil].
  destruct (agency_matches agencyFilter (agency (fields r))) eqn:Hag;
    [|by intros ?%elem_of_nil].
  destruct (nle _ range) eqn:Hd; [|by intros ?%elem_of_nil].
  intros ->%list_elem_of_singleton. done.
Qed.

(** C3. When the latitude bounds form a key range, the query returns a
    list; each of its stops is a stored one whose latitude and longitude
    lie within [range] of the query point on either side, whose planar
    distance from it does not exceed [range], which belongs to the agency
    asked for when one is, and which carries its planar and real
    distances; and the list is in non-decreasing order of [realDistance],
    these being numbers. *)
Theorem getStopsWithinRange_sound db qlat qlon range agencyFilter :
  nnan (nsub qlat range) = false ->
  nnan (nadd qlat range) = false ->
  nle (nsub qlat range) (nadd qlat range) = true ->
  exists res,
    getStopsWithinRange distanceOfTwoCoordinates db qlat qlon range agencyFilter
    = Returns res
    /\ (forall w, w ∈ res ->
          within distanceOfTwoCoordinates qlat qlon range agencyFilter w
          /\ exists k r, db !! k = Some r /\ stop w = fields r)
    /\ (Forall (fun w => nnan (realDistance w) = false) res ->
        StronglySorted closer_or_equal res).
Proof.
  intros Hlo Hhi Hle. unfold getStopsWithinRange.
  rewrite Hlo, Hhi, Hle. simpl. eexists. split; [reflexivity|]. split.
  - intros w Hw. apply sort_by_elem_of in Hw.
    apply list_elem_of_In, in_flat_map in Hw as ([k r] & He & Hw).
    apply list_elem_of_In, latIndex_bound_elem in He as (Hlook & _ & Hlat1 & Hlat2).
    apply list_elem_of_In, visit_elem in Hw as (-> & Hlon1 & Hlon2 & Hag & Hd).
    simpl in *. split; [|by exists k, r].
    unfold within. simpl. split_and!; try done.
    intros f ->. simpl in Hag. by apply bool_decide_eq_true in Hag.
  - intros Hnum.
    apply (sort_by_sorted farther closer_or_equal
             (fun w => nnan (realDistance w) = false)).
    + intros x y z. apply nle_trans.
    + intros x y Hx Hy Hgt. unfold farther in Hgt. unfold closer_or_equal.
      rewrite nsub_pos in Hgt by done. by apply negb_false_iff in Hgt.
    + intros x y Hx Hy Hgt. unfold farther in Hgt. unfold closer_or_equal.
      rewrite nsub_pos in Hgt by done. apply negb_true_iff in Hgt.
      destruct (nle_total (realDistance x) (realDistance y) Hx Hy) as [Hxy|Hyx];
        [by rewrite Hgt in Hxy | done].
    + by rewrite <- (sort_by_Permutation farther).
Qed.

(** Outside these bounds [IDBKeyRange.bound] throws, and so does the
    query. *)
Lemma getStopsWithinRange_Throws db qlat qlon range agencyFilter :
  nnan (nsub qlat range) = true \/ nnan (nadd qlat range) = true
  \/ nle (nsub qlat range) (nadd qlat range) = false ->
  getStopsWithinRange distanceOfTwoCoordinates db qlat qlon range agencyFilter
  = Throws.
Proof.
  unfold getStopsWithinRange. intros [Hlo|[Hhi|Hle]].
  - by rewrite Hlo.
  - rewrite Hhi. by rewrite orb_true_r.
  - rewrite Hle. by rewrite orb_true_r.
Qed.

(** X24. Nothing that qualifies is left out: a stored record with a
    latitude and a longitude within [range] of the query point, of the
    agency asked for and at a planar distance of at most [range], is in
    the result of the query, with its two distances. *)
Lemma getStopsWithinRange_complete db qlat qlon range agencyFilter k r res :
  getStopsWithinRange distanceOfTwoCoordinates db qlat qlon range agencyFilter
  = Returns res ->
  db !! k = Some r ->
  nnan (lat (fields r)) = false ->
  nle (nsub qlat range) (lat (fields r)) = true ->
  nle (lat (fields r)) (nadd qlat range) = true ->
  nle (nsub qlon range) (lon (fields r)) = true ->
  nle (lon (fields r)) (nadd qlon range) = true ->
  agency_matches agencyFilter (agency (fields r)) = true ->
  nle (planar qlat qlon (fields r)) range = true ->
  withDistance r (planar qlat qlon (fields r))
    (distanceOfTwoCoordinates (qlat, qlon) (lat (fields r), lon (fields r)))
  ∈ res.
Proof.
  unfold getStopsWithinRange. intros Hrun Hlook Hnan Hlat1 Hlat2 Hlon1 Hlon2 Hag Hd.
  destruct (nnan (nsub qlat range) || nnan (nadd qlat range)
            || negb (nle (nsub qlat range) (nadd qlat range))); [done|].
  injection Hrun as <-. apply sort_by_elem_of, list_elem_of_In, in_flat_map.
  exists (k, r). split.
  - apply list_elem_of_In, latIndex_bound_elem. by split_and!.
  - simpl. unfold visit. fold (planar qlat qlon (fields r)).
    rewrite Hlon1, Hlon2, Hag, Hd. simpl. by left.
Qed.

End RangeQuery.

(** The integers obey the laws. *)
#[global] Instance Z_double_laws : DoubleLaws (num := Z).
Proof.
  split; simpl.
  - intros a b c Hab Hbc. apply Z.leb_le. apply Z.leb_le in Hab, Hbc. lia.
  - intros a b _ _. rewrite !Z.leb_le. lia.
  - intros a b _ _. destruct (Z.leb_spec a b), (Z.ltb_spec 0 (a - b)); simpl; lia.
Qed.

Lemma getStopsWithinRange_sound_witness :
  exists res,
    getStopsWithinRange taxicab sample_db 0 0 10 (Some go) = Returns res
    /\ StronglySorted closer_or_equal res.
Proof.
  destruct (getStopsWithinRange_sound taxicab sample_db 0 0 10 (Some go))
    as (res & Hrun & _ & Hsorted).
  - reflexivity.
  - reflexivity.
  - reflexivity.
  - exists res. split; [exact Hrun|]. apply Hsorted.
    apply Forall_forall. intros w _. reflexivity.
Defined.

(** The scenario of the specification, on the integers: a stop saved at
    the query point comes back, at distance zero. *)
Example range_scenario :
  (fun r => match r with
            | Returns [w] => (id (stop w), distance w, realDistance w)
            | _ => ("", 1, 1)
            end)
    (getStopsWithinRange taxicab
       (saveStops ∅ [sample_stop "GO_UN" "UN" go "Union Station" 43645 (-79380)])
       43645 (-79380) 10 None)
  = ("GO_UN", 0, 0).
Proof. by vm_compute. Qed.

(** C4, as stated, fails on a list that carries one key twice: the first
    of the two stops does not read back. *)
Lemma saveStops_getStop_counterexample :
  ~ (forall (db : gmap string (StoredStop (num := Z))) stops s,
       s ∈ stops ->
       exists w, getStop (saveStops db stops) (id s) = Some w
         /\ code (stop w) = code s /\ agency (stop w) = agency s
         /\ name (stop w) = name s
         /\ lat (stop w) = lat s /\ lon (stop w) = lon s).
Proof.
  intros Hall.
  destruct (Hall ∅ twice_saved (sample_stop "TTC_A" "2" ttc "Spadina" 3 4))
    as (w & Hw & Hcode & _); [by left|].
  vm_compute in Hw. injection Hw as <-. discriminate Hcode.
Qed.

Lemma saveStops_getStop_witness :
  exists s',
    getStop (saveStops ∅ sample_stops) "GO_C" = Some (fresh s')
    /\ s' = sample_stop "GO_C" "3" go "Union" 0 1.
Proof.
  destruct (saveStops_getStop ∅ sample_stops (sample_stop "GO_C" "3" go "Union" 0 1))
    as (s' & _ & _ & Hget & _ & _ & _ & Hsame).
  - right. right. left.
  - exists s'. split; [exact Hget|]. apply Hsame. vm_compute.
    repeat constructor; rewrite ?list_elem_of_In; simpl; intuition discriminate.
Defined.

Lemma clearAgency_frame_witness :
  getAgencyCount (clearAgency sample_db go) go = 0%nat
  /\ getAgencyCount (clearAgency sample_db go) ttc = getAgencyCount sample_db ttc.
Proof.
  destruct (clearAgency_frame sample_db go ttc) as (Hgone & Hkept & _).
  - discriminate.
  - split; [exact Hgone | exact Hkept].
Defined.

Example clearAgency_counts :
  getAgencyCount sample_db go = 2%nat
  /\ getAgencyCount sample_db ttc = 2%nat
  /\ getAgencyCount (clearAgency sample_db go) go = 0%nat
  /\ getAgencyCount (clearAgency sample_db go) ttc = 2%nat.
Proof. by vm_compute. Qed.

End StoreFacts.

(** * Further properties of the stop store *)

Module StoreExtras.
Import JS StopStore StoreFacts.

Section MoreStoreProps.
Context {num : Type} `{!Double num}.
Implicit Types (db : gmap string (StoredStop (num := num))).
Implicit Types (stops : list (UnifiedStop (num := num))).

(** ** Batches *)

Lemma latest_None i stops : latest i stops = None <-> i ∉ id <$> stops.
Proof.
  unfold latest. rewrite last_None. split.
  - intros Hnil Hin. apply list_elem_of_fmap in Hin as (s & -> & Hs).
    assert (Hf : s ∈ filter (fun s0 => id s0 = id s) stops)
      by (by apply list_elem_of_filter).
    rewrite Hnil in Hf. by apply elem_of_nil in Hf.
  - intros Hout.
    destruct (filter (fun s => id s = i) stops) as [|s l] eqn:Hf; [done|].
    assert (Hs : s ∈ filter (fun s => id s = i) stops) by (rewrite Hf; left).
    apply list_elem_of_filter in Hs as [<- Hs]. destruct Hout.
    by apply list_elem_of_fmap_2.
Qed.

Lemma latest_app_same i stops : latest i (stops ++ stops) = latest i stops.
Proof.
  unfold latest. rewrite filter_app.
  destruct (filter (fun s => id s = i) stops) as [|s l] eqn:Hf; [done|].
  rewrite last_app. by destruct (last (s :: l)).
Qed.

(** X1. [saveStops] is additive: under an id that no stop of the batch
    carries, the store holds what it held before, and [getStop] reads the
    same. *)
Theorem saveStops_keeps_other_ids db stops i :
  i ∉ id <$> stops ->
  saveStops db stops !! i = db !! i
  /\ getStop (saveStops db stops) i = getStop db i.
Proof.
  intros Hout. apply latest_None in Hout.
  assert (Hlook : saveStops db stops !! i = db !! i)
    by (by rewrite saveStops_lookup, Hout).
  split; [done|]. unfold getStop. by rewrite Hlook.
Qed.

(** X2. Saving in two batches is saving the concatenation, and saving a
    batch a second time changes nothing. *)
Theorem saveStops_batches db stops more :
  saveStops (saveStops db stops) more = saveStops db (stops ++ more)
  /\ saveStops (saveStops db stops) stops = saveStops db stops.
Proof.
  assert (Happ : forall l, saveStops (saveStops db stops) l = saveStops db (stops ++ l)).
  { intros l. unfold saveStops. by rewrite foldl_app. }
  split; [apply Happ|]. rewrite Happ. apply map_eq. intros i.
  by rewrite !saveStops_lookup, latest_app_same.
Qed.

(** ** Counting *)

Lemma put_size db r :
  size (put db r)
  = match db !! id (fields r) with
    | Some _ => size db
    | None => S (size db)
    end.
Proof.
  unfold put. destruct (db !! id (fields r)) as [r'|] eqn:Hr.
  - by erewrite map_size_insert_Some.
  - by rewrite map_size_insert_None.
Qed.

Lemma saveStops_fresh_lookup db stops i :
  db !! i = None -> i ∉ id <$> stops -> saveStops db stops !! i = None.
Proof.
  intros Hnone Hout. apply latest_None in Hout.
  by rewrite saveStops_lookup, Hout.
Qed.

(** X3. A batch never shrinks the store and adds at most one record per
    stop; it adds exactly one per stop when the ids of the batch are
    pairwise distinct and none of them is in the store yet. *)
Theorem saveStops_size db stops :
  (getSize db <= getSize (saveStops db stops) <= getSize db + length stops)%nat
  /\ (NoDup (id <$> stops) -> (forall s, s ∈ stops -> db !! id s = None) ->
      getSize (saveStops db stops) = (getSize db + length stops)%nat).
Proof.
  unfold getSize. induction stops as [|s stops IH] using rev_ind.
  - simpl. split; [lia | intros _ _; lia].
  - rewrite saveStops_snoc, put_size, length_app. simpl.
    destruct IH as [Hbound Hexact]. split.
    + destruct (saveStops db stops !! id s); lia.
    + intros Hnd Hfresh. rewrite fmap_app in Hnd. simpl in Hnd.
      apply NoDup_app in Hnd as (Hnd & Hdisj & _).
      rewrite saveStops_fresh_lookup.
      * rewrite Hexact; [lia | done |].
        intros s' Hs'. apply Hfresh, elem_of_app. by left.
      * apply Hfresh, elem_of_app. right. by left.
      * intros Hin. apply (Hdisj _ Hin). by left.
Qed.

Lemma agency_partition (l : list (string * StoredStop (num := num))) :
  length l
  = (length (List.filter (fun e => bool_decide (agency (fields e.2) = ttc)) l)
     + length (List.filter (fun e => bool_decide (agency (fields e.2) = go)) l)
     + length (List.filter (fun e => bool_decide (agency (fields e.2) = yrt)) l)
     + length (List.filter (fun e => bool_decide (agency (fields e.2) = miway)) l)
     + length (List.filter (fun e => bool_decide (agency (fields e.2) = brampton)) l))%nat.
Proof.
  induction l as [|e l IH]; [done|].
  simpl. destruct (agency (fields e.2)); simpl; lia.
Qed.

Lemma getAgencyCount_after_clear db X Y :
  getAgencyCount (clearAgency db X) Y
  = if decide (Y = X) then 0%nat else getAgencyCount db Y.
Proof.
  rewrite !getAgencyCount_filter. destruct (decide (Y = X)) as [->|Hne].
  - destruct (List.filter _ (entries (clearAgency db X))) as [|e l] eqn:Hl; [done|].
    assert (He : e ∈ e :: l) by left. rewrite <- Hl in He.
    apply entries_filter_elem in He as [Hlook Hag].
    by apply clearAgency_lookup_Some in Hlook as [_ Hnot].
  - apply Permutation_length, NoDup_Permutation.
    + apply NoDup_bool_filter, NoDup_map_to_list.
    + apply NoDup_bool_filter, NoDup_map_to_list.
    + intros e. rewrite !entries_filter_elem, clearAgency_lookup_Some.
      split; [by intros [[? ?] ?] | intros [? Hag]].
      split_and!; try done. by rewrite Hag.
Qed.

(** X4. The size of the store is the sum of the counts of the five
    agencies, and clearing an agency takes exactly its count off the
    size. *)
Theorem getSize_by_agency db X :
  getSize db
  = (getAgencyCount db ttc + getAgencyCount db go + getAgencyCount db yrt
     + getAgencyCount db miway + getAgencyCount db brampton)%nat
  /\ (getSize (clearAgency db X) + getAgencyCount db X)%nat = getSize db.
Proof.
  assert (Hsum : forall d : gmap string (StoredStop (num := num)),
            getSize d
            = (getAgencyCount d ttc + getAgencyCount d go + getAgencyCount d yrt
               + getAgencyCount d miway + getAgencyCount d brampton)%nat).
  { intros d. rewrite !getAgencyCount_filter. unfold getSize, entries.
    rewrite <- agency_partition. symmetry. apply length_map_to_list. }
  split; [apply Hsum|].
  rewrite (Hsum (clearAgency db X)), (Hsum db), !getAgencyCount_after_clear.
  destruct X; simpl; lia.
Qed.

(** ** Clearing *)

Lemma clearAgency_lookup db X k :
  clearAgency db X !! k
  = match db !! k with
    | Some r => if decide (agency (fields r) = X) then None else Some r
    | None => None
    end.
Proof.
  destruct (clearAgency db X !! k) as [r|] eqn:Hc.
  - apply clearAgency_lookup_Some in Hc as [-> Hne]. by rewrite decide_False.
  - destruct (db !! k) as [r|] eqn:Hr; [|done].
    destruct (decide (agency (fields r) = X)) as [|Hne]; [done|].
    assert (Hsome : clearAgency db X !! k = Some r)
      by (by apply clearAgency_lookup_Some).
    by rewrite Hsome in Hc.
Qed.

(** X5. Clearing an agency twice is clearing it once, and agencies can be
    cleared in either order. *)
Theorem clearAgency_twice_and_swap db X Y :
  clearAgency (clearAgency db X) X = clearAgency db X
  /\ clearAgency (clearAgency db X) Y = clearAgency (clearAgency db Y) X.
Proof.
  split; apply map_eq; intros k; rewrite !clearAgency_lookup;
    destruct (db !! k) as [r|]; try done;
    repeat (case_decide; try done).
Qed.

(** ** The key path *)

Lemma keyed_put db r : keyed db -> keyed (put db r).
Proof.
  intros Hk k r'. unfold put.
  destruct (decide (id (fields r) = k)) as [<-|Hne].
  - rewrite lookup_insert_eq. by intros [= <-].
  - rewrite lookup_insert_ne by done. apply Hk.
Qed.

Lemma keyed_saveStops db stops : keyed db -> keyed (saveStops db stops).
Proof.
  intros Hk. induction stops as [|s stops IH] using rev_ind; [done|].
  rewrite saveStops_snoc. by apply keyed_put.
Qed.

(** X6. Records sit under their own id: the empty store has this, and
    [saveStops], [clearAgency] and [clear] keep it; with it, what [getStop]
    returns under an id carries that id. *)
Theorem keyed_invariant db stops X :
  keyed (∅ : gmap string (StoredStop (num := num)))
  /\ (keyed db ->
      keyed (saveStops db stops) /\ keyed (clearAgency db X) /\ keyed (clear db)
      /\ forall i w, getStop db i = Some w -> id (stop w) = i).
Proof.
  split; [by intros k r; rewrite lookup_empty|].
  intros Hk. split_and!.
  - by apply keyed_saveStops.
  - intros k r Hr. apply clearAgency_lookup_Some in Hr as [Hr _]. by apply Hk.
  - by intros k r; unfold clear; rewrite lookup_empty.
  - intros i w. unfold getStop. destruct (db !! i) as [r|] eqn:Hr; [|done].
    intros [= <-]. simpl. by apply Hk.
Qed.

(** ** Lookup by code *)

Lemma string_compare_trans s1 s2 s3 :
  String.compare s1 s2 <> Gt -> String.compare s2 s3 <> Gt ->
  String.compare s1 s3 <> Gt.
Proof.
  revert s2 s3. induction s1 as [|c1 s1 IH]; intros [|c2 s2] [|c3 s3]; simpl;
    try done.
  unfold Ascii.compare.
  destruct (N.compare_spec (N_of_ascii c1) (N_of_ascii c2)) as [H12|H12|H12];
    destruct (N.compare_spec (N_of_ascii c2) (N_of_ascii c3)) as [H23|H23|H23];
    destruct (N.compare_spec (N_of_ascii c1) (N_of_ascii c3)) as [H13|H13|H13];
    try done; try lia.
  apply IH.
Qed.

Lemma string_leb_trans s1 s2 s3 :
  String.leb s1 s2 = true -> String.leb s2 s3 = true -> String.leb s1 s3 = true.
Proof.
  unfold String.leb. intros H12 H23.
  pose proof (string_compare_trans s1 s2 s3) as Ht.
  destruct (String.compare s1 s2), (String.compare s2 s3), (String.compare s1 s3);
    try done; by destruct Ht.
Qed.

Lemma codeIndex_only_elem db c e :
  e ∈ codeIndex_only db c <-> db !! e.1 = Some e.2 /\ code (fields e.2) = c.
Proof.
  unfold codeIndex_only, entries.
  rewrite sort_by_elem_of, list_elem_of_In, filter_In, <- list_elem_of_In.
  rewrite String.eqb_eq. destruct e as [k r]. by rewrite elem_of_map_to_list.
Qed.

(** On ASCII keys the order of the keys is the order of their bytes. *)
Lemma key_image_ascii s : string_forall is_ascii s = true -> key_image s = s.
Proof.
  unfold key_image. induction s as [|c s IH]; [done|].
  simpl. intros [Hc Hs]%andb_prop. rewrite (IH Hs). f_equal.
  unfold is_ascii in Hc. apply N.ltb_lt in Hc.
  unfold key_rank.
  destruct (JS.code c =? 238)%N eqn:H1; [apply N.eqb_eq in H1; lia|].
  destruct (JS.code c =? 239)%N eqn:H2; [apply N.eqb_eq in H2; lia|].
  destruct (240 <=? JS.code c)%N eqn:H3; [apply N.leb_le in H3; lia | done].
Qed.

Lemma key_le_ascii k k' :
  string_forall is_ascii k = true -> string_forall is_ascii k' = true ->
  key_le k k' = String.leb k k'.
Proof. intros Hk Hk'. unfold key_le. by rewrite !key_image_ascii. Qed.

Lemma codeIndex_only_sorted db c :
  StronglySorted (fun x y => key_le x.1 y.1 = true) (codeIndex_only db c).
Proof.
  unfold codeIndex_only.
  apply (sort_by_sorted _ _ (fun _ => True)).
  - intros x y z. apply string_leb_trans.
  - intros x y _ _. unfold key_gt. by intros ?%negb_false_iff.
  - intros x y _ _. unfold key_gt, key_le. intros Hgt%negb_true_iff.
    destruct (String.leb_total (key_image x.1) (key_image y.1)) as [Hxy|Hyx];
      [by rewrite Hgt in Hxy | done].
  - by apply Forall_forall.
Qed.

Lemma find_first_sorted {A : Type} (R : A -> A -> Prop) (p : A -> bool) l x :
  (forall y, R y y) ->
  StronglySorted R l -> List.find p l = Some x ->
  forall y, y ∈ l -> p y = true -> R x y.
Proof.
  intros Hrefl Hsorted. induction Hsorted as [|z l Hsorted IH Hz]; simpl; [done|].
  destruct (p z) eqn:Hpz.
  - intros [= <-] y Hy _. apply elem_of_cons in Hy as [->|Hy]; [done|].
    rewrite Forall_forall in Hz. by apply Hz.
  - intros Hfind y Hy Hpy. apply elem_of_cons in Hy as [->|Hy].
    + by rewrite Hpy in Hpz.
    + by apply IH.
Qed.

Lemma getStopByCode_Some db c a w :
  getStopByCode db c a = Some w ->
  exists k r, db !! k = Some r
    /\ code (fields r) = c /\ agency (fields r) = a
    /\ w = withDistance r nzero nzero
    /\ forall k' r', db !! k' = Some r' ->
         code (fields r') = c -> agency (fields r') = a ->
         key_le k k' = true.
Proof.
  unfold getStopByCode.
  destruct (List.find _ (codeIndex_only db c)) as [[k r]|] eqn:Hfind; [|done].
  intros [= <-].
  pose proof (find_some _ _ Hfind) as [Hin Hag].
  apply list_elem_of_In, codeIndex_only_elem in Hin as [Hlook Hcode].
  apply bool_decide_eq_true in Hag. simpl in *.
  exists k, r. split_and!; try done.
  intros k' r' Hlook' Hcode' Hag'.
  apply (find_first_sorted (fun x y => key_le x.1 y.1 = true) _ _ _
           ltac:(intros y; unfold key_le;
                 destruct (String.leb_total (key_image y.1) (key_image y.1)); done)
           (codeIndex_only_sorted db c) Hfind (k', r')).
  - by apply codeIndex_only_elem.
  - by apply bool_decide_eq_true.
Qed.

Lemma getStopByCode_None db c a :
  getStopByCode db c a = None ->
  forall k r, db !! k = Some r -> code (fields r) = c -> agency (fields r) <> a.
Proof.
  unfold getStopByCode.
  destruct (List.find _ (codeIndex_only db c)) as [e|] eqn:Hfind; [done|].
  intros _ k r Hlook Hcode Hag.
  pose proof (find_none _ _ Hfind (k, r)) as Hnone.
  rewrite <- list_elem_of_In, codeIndex_only_elem in Hnone.
  specialize (Hnone (conj Hlook Hcode)). simpl in Hnone.
  by apply bool_decide_eq_false in Hnone.
Qed.

(** X7. [getStopByCode] answers with a stored record of the code and the
    agency asked for, distances zero, whenever the store holds one, and
    with nothing only when it holds none; among several it is the record
    whose id comes first in the order of the keys, which for ASCII ids is
    the order of their bytes. *)
Theorem getStopByCode_spec db c a :
  match getStopByCode db c a with
  | Some w =>
      exists k r, db !! k = Some r
        /\ code (fields r) = c /\ agency (fields r) = a
        /\ w = withDistance r nzero nzero
        /\ forall k' r', db !! k' = Some r' ->
             code (fields r') = c -> agency (fields r') = a ->
             key_le k k' = true
             /\ (string_forall is_ascii k = true ->
                 string_forall is_ascii k' = true ->
                 String.leb k k' = true)
  | None =>
      forall k r, db !! k = Some r -> code (fields r) = c -> agency (fields r) <> a
  end.
Proof.
  destruct (getStopByCode db c a) as [w|] eqn:Hget.
  - apply getStopByCode_Some in Hget as (k & r & Hlook & Hcode & Hag & Hw & Hleast).
    exists k, r. split_and!; try done.
    intros k' r' Hlook' Hcode' Hag'.
    specialize (Hleast k' r' Hlook' Hcode' Hag'). split; [done|].
    intros Hk Hk'. by rewrite <- key_le_ascii.
  - by apply getStopByCode_None.
Qed.

(** X8. After [saveStops], looking up the code and agency of the stop that
    a batch leaves under an id finds a record with this code and agency. *)
Theorem saveStops_getStopByCode db stops i s :
  latest i stops = Some s ->
  exists w, getStopByCode (saveStops db stops) (code s) (agency s) = Some w
    /\ code (stop w) = code s /\ agency (stop w) = agency s
    /\ distance w = nzero /\ realDistance w = nzero.
Proof.
  intros Hlatest.
  assert (Hlook : saveStops db stops !! i = Some (stored s))
    by (by rewrite saveStops_lookup, Hlatest).
  destruct (getStopByCode (saveStops db stops) (code s) (agency s)) as [w|] eqn:Hget.
  - apply getStopByCode_Some in Hget as (k & r & _ & Hcode & Hag & -> & _).
    exists (withDistance r nzero nzero). by split_and!.
  - by destruct (getStopByCode_None _ _ _ Hget i (stored s) Hlook eq_refl).
Qed.

(** ** Replacing the stops of an agency *)

(** X9. The way to replace an agency's stops: after [clearAgency X], a
    batch of stops of agency [X] with pairwise distinct ids leaves exactly
    the batch as the records of [X], and each of its stops reads back. *)
Theorem clearAgency_then_saveStops db X stops :
  NoDup (id <$> stops) ->
  (forall s, s ∈ stops -> agency s = X) ->
  getAgencyCount (saveStops (clearAgency db X) stops) X = length stops
  /\ forall s, s ∈ stops ->
       getStop (saveStops (clearAgency db X) stops) (id s) = Some (fresh s).
Proof.
  intros Hnd Hag.
  assert (Hlatest : forall s, s ∈ stops -> latest (id s) stops = Some s).
  { intros s Hs. destruct (latest_of_saved stops s Hs) as [s' Hs'].
    destruct (latest_Some _ _ _ Hs') as [Hid Hin].
    by rewrite Hs', (same_id_same_stop stops s s' Hnd Hs Hin Hid). }
  split.
  - rewrite getAgencyCount_filter.
    rewrite <- (length_fmap (fun s => (id s, stored s)) stops).
    apply Permutation_length, NoDup_Permutation.
    + apply NoDup_bool_filter, NoDup_map_to_list.
    + apply (NoDup_fmap_1 fst). by rewrite <- list_fmap_compose.
    + intros [k r]. rewrite entries_filter_elem, list_elem_of_fmap. simpl.
      rewrite saveStops_lookup. split.
      * intros [Hlook Hr].
        destruct (latest k stops) as [s|] eqn:Hk.
        -- destruct (latest_Some _ _ _ Hk) as [<- Hs].
           exists s. split; [congruence | done].
        -- by apply clearAgency_lookup_Some in Hlook as [_ Hne].
      * intros (s & [= -> ->] & Hs). rewrite (Hlatest s Hs).
        split; [done|]. simpl. by apply Hag.
  - intros s Hs. unfold getStop. by rewrite saveStops_lookup, (Hlatest s Hs).
Qed.

End MoreStoreProps.

(** ** Range queries, further *)

Section SortingFilter.
Context {A : Type} (gt : A -> A -> bool) (R : A -> A -> Prop) (P : A -> Prop).
Hypothesis R_trans : forall x y z, R x y -> R y z -> R x z.
Hypothesis not_gt : forall x y, P x -> P y -> gt x y = false -> R x y.
Hypothesis is_gt : forall x y, P x -> P y -> gt x y = true -> R y x.
Hypothesis R_not_gt : forall x y, P x -> P y -> R x y -> gt x y = false.

Lemma insert_by_front x l :
  match l with y :: _ => gt x y = false | [] => True end ->
  insert_by gt x l = x :: l.
Proof. destruct l as [|y l]; simpl; [done|]. by intros ->. Qed.

Lemma insert_by_filter (p : A -> bool) x l :
  P x -> Forall P l -> StronglySorted R l ->
  List.filter p (insert_by gt x l)
  = if p x then insert_by gt x (List.filter p l) else List.filter p l.
Proof.
  intros Px Pl Hsorted. induction Hsorted as [|y l Hsorted IH Hy].
  - simpl. by destruct (p x).
  - apply Forall_cons in Pl as [Py Pl]. simpl. destruct (gt x y) eqn:Hgt.
    + simpl. rewrite IH by done. destruct (p x), (p y); simpl; by rewrite ?Hgt.
    + simpl. destruct (p x); [|done]. f_equal. symmetry.
      change (insert_by gt x (List.filter p (y :: l)) = x :: List.filter p (y :: l)).
      apply insert_by_front.
      destruct (List.filter p (y :: l)) as [|z l'] eqn:Hf; [done|].
      assert (Hz : z ∈ y :: l).
      { assert (Hin : z ∈ List.filter p (y :: l)) by (rewrite Hf; left).
        apply list_elem_of_In, filter_In in Hin as [Hin _].
        by apply list_elem_of_In. }
      assert (Rxy : R x y) by (by apply not_gt).
      apply elem_of_cons in Hz as [->|Hz]; [done|].
      rewrite Forall_forall in Hy, Pl.
      apply R_not_gt; [done | by apply Pl |]. eapply R_trans; [exact Rxy|]. by apply Hy.
Qed.

Lemma sort_by_filter (p : A -> bool) l :
  Forall P l -> List.filter p (sort_by gt l) = sort_by gt (List.filter p l).
Proof.
  induction 1 as [|x l Px Pl IH]; [done|].
  rewrite sort_by_cons, insert_by_filter; try done.
  - rewrite IH. simpl. by destruct (p x).
  - by rewrite sort_by_Permutation.
  - by apply (sort_by_sorted gt R P).
Qed.

End SortingFilter.

Lemma filter_flat_map {A B : Type} (p : B -> bool) (f : A -> list B) l :
  List.filter p (flat_map f l) = flat_map (fun x => List.filter p (f x)) l.
Proof.
  induction l as [|x l IH]; [done|]. simpl. by rewrite List.filter_app, IH.
Qed.

Lemma NoDup_fst_bool_filter {A B : Type} (f : A * B -> bool) (l : list (A * B)) :
  NoDup l.*1 -> NoDup (List.filter f l).*1.
Proof.
  induction l as [|e l IH]; simpl; [done|].
  intros [Hout Hnd]%NoDup_cons. destruct (f e); simpl; [|by apply IH].
  apply NoDup_cons. split; [|by apply IH].
  intros Hin. apply Hout.
  apply list_elem_of_fmap in Hin as (e' & -> & He').
  apply list_elem_of_In, filter_In in He' as [He' _].
  by apply list_elem_of_fmap_2, list_elem_of_In.
Qed.

Section MoreRangeQuery.
Context {num : Type} `{!Double num}.
Variable distanceOfTwoCoordinates : num * num -> num * num -> num.
Implicit Types (db : gmap string (StoredStop (num := num))).

Lemma visit_agency qlat qlon range lowerLon upperLon a r :
  visit distanceOfTwoCoordinates qlat qlon range lowerLon upperLon (Some a) r
  = List.filter (fun w => isAgency (stop w) a)
      (visit distanceOfTwoCoordinates qlat qlon range lowerLon upperLon None r).
Proof.
  unfold visit, isAgency. simpl.
  destruct (nle lowerLon (lon (fields r)) && nle (lon (fields r)) upperLon); [|done].
  destruct (bool_decide (agency (fields r) = a)) eqn:Hag.
  - destruct (nle _ range); simpl; by rewrite ?Hag.
  - destruct (nle _ range); simpl; by rewrite ?Hag.
Qed.

(** X10. Asking for one agency gives the list that filtering the answer
    for all agencies gives, in the same order (the real distances being
    numbers). *)
Theorem getStopsWithinRange_agency `{!DoubleLaws} db qlat qlon range a everyone :
  getStopsWithinRange distanceOfTwoCoordinates db qlat qlon range None
  = Returns everyone ->
  Forall (fun w => nnan (realDistance w) = false) everyone ->
  getStopsWithinRange distanceOfTwoCoordinates db qlat qlon range (Some a)
  = Returns (List.filter (fun w => isAgency (stop w) a) everyone).
Proof.
  unfold getStopsWithinRange. intros Hrun Hnum.
  destruct (nnan (nsub qlat range) || nnan (nadd qlat range)
            || negb (nle (nsub qlat range) (nadd qlat range))); [done|].
  injection Hrun as <-. f_equal.
  rewrite (sort_by_filter farther closer_or_equal
             (fun w => nnan (realDistance w) = false)).
  - f_equal. rewrite filter_flat_map. apply flat_map_ext.
    intros e. apply visit_agency.
  - intros x y z. apply nle_trans.
  - intros x y Hx Hy Hgt. unfold farther in Hgt. unfold closer_or_equal.
    rewrite nsub_pos in Hgt by done. by apply negb_false_iff in Hgt.
  - intros x y Hx Hy Hgt. unfold farther in Hgt. unfold closer_or_equal.
    rewrite nsub_pos in Hgt by done. apply negb_true_iff in Hgt.
    destruct (nle_total (realDistance x) (realDistance y) Hx Hy) as [Hxy|Hyx];
      [by rewrite Hgt in Hxy | done].
  - intros x y Hx Hy Hxy. unfold farther, closer_or_equal in *.
    rewrite nsub_pos by done. by rewrite Hxy.
  - by rewrite <- (sort_by_Permutation farther).
Qed.

Lemma visit_length qlat qlon range lowerLon upperLon f r :
  (length (visit distanceOfTwoCoordinates qlat qlon range lowerLon upperLon f r) <= 1)%nat.
Proof.
  unfold visit.
  repeat match goal with
         | |- context [if ?b then _ else _] => destruct b
         end; simpl; lia.
Qed.

Lemma visit_stop qlat qlon range lowerLon upperLon f r w :
  w ∈ visit distanceOfTwoCoordinates qlat qlon range lowerLon upperLon f r ->
  stop w = fields r.
Proof.
  unfold visit.
  repeat match goal with
         | |- context [if ?b then _ else _] => destruct b
         end; try (by intros ?%elem_of_nil).
  by intros ->%list_elem_of_singleton.
Qed.

Lemma flat_map_visit_length qlat qlon range lowerLon upperLon f
    (l : list (string * StoredStop (num := num))) :
  (length (flat_map (fun e => visit distanceOfTwoCoordinates qlat qlon range
                                lowerLon upperLon f e.2) l) <= length l)%nat.
Proof.
  induction l as [|e l IH]; simpl; [lia|].
  rewrite length_app.
  pose proof (visit_length qlat qlon range lowerLon upperLon f e.2). lia.
Qed.

Lemma flat_map_visit_NoDup qlat qlon range lowerLon upperLon f
    (l : list (string * StoredStop (num := num))) :
  (forall e, e ∈ l -> id (fields e.2) = e.1) ->
  NoDup l.*1 ->
  NoDup ((fun w => id (stop w))
           <$> flat_map (fun e => visit distanceOfTwoCoordinates qlat qlon range
                                    lowerLon upperLon f e.2) l).
Proof.
  induction l as [|e l IH]; simpl; intros Hkey Hnd; [constructor|].
  apply NoDup_cons in Hnd as [Hout Hnd].
  rewrite fmap_app. apply NoDup_app. split_and!.
  - pose proof (visit_length qlat qlon range lowerLon upperLon f e.2) as Hlen.
    destruct (visit _ _ _ _ _ _ _ e.2) as [|w [|w' l']]; simpl in *;
      [constructor | apply NoDup_singleton | lia].
  - intros i Hi Hi'.
    apply list_elem_of_fmap in Hi as (w & -> & Hw).
    apply visit_stop in Hw. rewrite Hw, (Hkey e) in Hi' by left.
    apply list_elem_of_fmap in Hi' as (w' & Hid & Hw').
    apply list_elem_of_In, in_flat_map in Hw' as (e' & He' & Hw').
    apply list_elem_of_In, visit_stop in Hw'. apply list_elem_of_In in He'.
    apply Hout. rewrite Hid, Hw', (Hkey e') by (by right).
    by apply list_elem_of_fmap_2.
  - apply IH; [|done]. intros e' He'. apply Hkey. by right.
Qed.

(** X11. A range query returns each stored record at most once: its result
    is no longer than the store is large, and when records sit under their
    own ids, the ids of the result are pairwise distinct. *)
Theorem getStopsWithinRange_no_duplicates db qlat qlon range f res :
  getStopsWithinRange distanceOfTwoCoordinates db qlat qlon range f = Returns res ->
  (length res <= getSize db)%nat
  /\ (keyed db -> NoDup ((fun w => id (stop w)) <$> res)).
Proof.
  unfold getStopsWithinRange. intros Hrun.
  destruct (nnan (nsub qlat range) || nnan (nadd qlat range)
            || negb (nle (nsub qlat range) (nadd qlat range))); [done|].
  injection Hrun as <-. split.
  - rewrite sort_by_length.
    etrans; [apply flat_map_visit_length|].
    unfold latIndex_bound. rewrite sort_by_length.
    etrans; [apply List.filter_length_le|].
    unfold entries, getSize. by rewrite length_map_to_list.
  - intros Hk. rewrite sort_by_Permutation.
    apply flat_map_visit_NoDup.
    + intros [k r] He.
      apply (latIndex_bound_elem distanceOfTwoCoordinates) in He as [Hlook _].
      simpl in *. by apply Hk.
    + unfold latIndex_bound. rewrite sort_by_Permutation.
      apply NoDup_fst_bool_filter, NoDup_fst_map_to_list.
Qed.

End MoreRangeQuery.

(** ** Concrete runs *)

Lemma saveStops_keeps_other_ids_witness :
  getStop (saveStops sample_db twice_saved) "GO_C" = getStop sample_db "GO_C".
Proof.
  apply (saveStops_keeps_other_ids sample_db twice_saved "GO_C").
  rewrite list_elem_of_In. simpl. intuition discriminate.
Defined.

Lemma saveStops_size_witness :
  getSize (saveStops ∅ sample_stops) = 4%nat.
Proof.
  destruct (saveStops_size ∅ sample_stops) as [_ Hexact].
  rewrite Hexact; [reflexivity | |].
  - vm_compute. repeat constructor; rewrite ?list_elem_of_In; simpl; intuition discriminate.
  - intros s _. apply lookup_empty.
Defined.

Lemma keyed_invariant_witness :
  keyed sample_db
  /\ exists w, getStop sample_db "GO_C" = Some w /\ id (stop w) = "GO_C".
Proof.
  destruct (keyed_invariant (num := Z) ∅ sample_stops go) as [Hempty Hkept].
  destruct (Hkept Hempty) as (Hsaved & _).
  destruct (keyed_invariant sample_db [] go) as [_ Hread].
  destruct (Hread Hsaved) as (_ & _ & _ & Hget).
  split; [exact Hsaved|].
  eexists. split; [by vm_compute|].
  apply (Hget "GO_C"). by vm_compute.
Defined.

Lemma getStopByCode_spec_witness :
  exists w,
    getStopByCode same_code_db "7" go = Some w
    /\ id (stop w) = "GO_A"
    /\ String.leb (id (stop w)) "GO_B" = true.
Proof.
  pose proof (getStopByCode_spec same_code_db "7" go) as Hspec.
  destruct (getStopByCode same_code_db "7" go) as [w|] eqn:Hget;
    [|by vm_compute in Hget].
  destruct Hspec as (k & r & Hlook & _ & _ & Hw & Hleast).
  exists w. split; [reflexivity|].
  assert (Hid : id (stop w) = "GO_A").
  { vm_compute in Hget. by injection Hget as <-. }
  split; [exact Hid|].
  assert (Hk : k = "GO_A").
  { rewrite <- Hid, Hw. symmetry.
    apply (keyed_saveStops (num := Z) ∅ [ sample_stop "GO_B" "7" go "Bloor" 5 5;
                                          sample_stop "GO_A" "7" go "Aldershot" 1 1 ]);
      [by intros k0 r0 Hk0; rewrite lookup_empty in Hk0 | exact Hlook]. }
  rewrite Hid. subst k.
  destruct (Hleast "GO_B" (stored (sample_stop "GO_B" "7" go "Bloor" 5 5)))
    as [_ Hbytes]; [by vm_compute | done | done |].
  by apply Hbytes.
Defined.

(** Ids outside ASCII: the id beyond U+FFFF comes before the one at U+FF21
    in the order of the keys, though its bytes come after. *)
Example key_order_examples :
  key_le astral_id fullwidth_id = true
  /\ String.leb fullwidth_id astral_id = true
  /\ name <$> (stop <$> getStopByCode unicode_ids_db "7" go) = Some "astral id".
Proof. by vm_compute. Qed.

Lemma saveStops_getStopByCode_witness :
  exists w, getStopByCode (saveStops ∅ twice_saved) "9" go = Some w
    /\ code (stop w) = "9" /\ agency (stop w) = go.
Proof.
  destruct (saveStops_getStopByCode ∅ twice_saved "TTC_A"
              (sample_stop "TTC_A" "9" go "Dupont" 1 1))
    as (w & Hget & Hcode & Hag & _).
  - reflexivity.
  - exists w. split; [exact Hget|]. split; [exact Hcode | exact Hag].
Defined.

Lemma clearAgency_then_saveStops_witness :
  getAgencyCount
    (saveStops (clearAgency sample_db ttc)
       [sample_stop "TTC_A" "2" ttc "Spadina" 3 4; sample_stop "TTC_E" "5" ttc "Dundas" 2 2])
    ttc
  = 2%nat.
Proof.
  destruct (clearAgency_then_saveStops sample_db ttc
              [sample_stop "TTC_A" "2" ttc "Spadina" 3 4;
               sample_stop "TTC_E" "5" ttc "Dundas" 2 2]) as [Hcount _].
  - vm_compute. repeat constructor; rewrite ?list_elem_of_In; simpl; intuition discriminate.
  - intros s Hs. rewrite list_elem_of_In in Hs. simpl in Hs.
    destruct Hs as [<-|[<-|[]]]; reflexivity.
  - exact Hcount.
Defined.

Lemma getStopsWithinRange_complete_witness :
  exists res,
    getStopsWithinRange taxicab sample_db 0 0 10 None = Returns res
    /\ withDistance (stored (sample_stop "GO_C" "3" go "Union" 0 1))
         (planar 0 0 (sample_stop "GO_C" "3" go "Union" 0 1))
         (taxicab (0, 0) (0, 1)) ∈ res.
Proof.
  eexists. split; [by vm_compute|].
  apply (getStopsWithinRange_complete taxicab sample_db 0 0 10 None "GO_C"
           (stored (sample_stop "GO_C" "3" go "Union" 0 1))); by vm_compute.
Defined.

Lemma getStopsWithinRange_agency_witness :
  exists everyone,
    getStopsWithinRange taxicab sample_db 0 0 10 (Some go)
    = Returns (List.filter (fun w => isAgency (stop w) go) everyone)
    /\ length everyone = 3%nat.
Proof.
  eexists. split.
  - apply (getStopsWithinRange_agency taxicab sample_db 0 0 10 go).
    + by vm_compute.
    + apply Forall_forall. intros w _. reflexivity.
  - reflexivity.
Defined.

Lemma getStopsWithinRange_no_duplicates_witness :
  exists res,
    getStopsWithinRange taxicab sample_db 0 0 10 None = Returns res
    /\ (length res <= 4)%nat.
Proof.
  eexists. split; [by vm_compute|].
  destruct (getStopsWithinRange_no_duplicates taxicab sample_db 0 0 10 None _
              ltac:(by vm_compute)) as [Hlen _].
  exact Hlen.
Defined.

End StoreExtras.

(** * Further properties of the normalizers *)

Module AdapterExtras.
Import JS Adapters AdapterFacts.

(** ** Loops *)

Lemma Get_cases v k :
  Get v k = if nullish v then Throws else Returns (GetOpt v k).
Proof. by destruct v. Qed.

Lemma collect_ext {A B} (f g : A -> result (list B)) l :
  (forall x, x ∈ l -> f x = g x) -> collect f l = collect g l.
Proof.
  induction l as [|x l IH]; intros Hfg; simpl; [done|].
  rewrite (Hfg x) by left. rewrite IH; [done|].
  intros y Hy. apply Hfg. by right.
Qed.

Lemma collect_singleton {A B} (f : A -> result (list B)) x :
  collect f [x] = f x.
Proof.
  simpl. destruct (f x) as [|ys]; simpl; [done|].
  unret. by rewrite app_nil_r.
Qed.

(** What a loop has pushed, entry by entry. *)
Lemma collect_Forall2 {A B C} (f : A -> result (list B)) (h : A -> list C)
    (Q : C -> B -> Prop) l ys :
  (forall x g, x ∈ l -> f x = Returns g -> Forall2 Q (h x) g) ->
  collect f l = Returns ys -> Forall2 Q (flat_map h l) ys.
Proof.
  revert ys. induction l as [|x l IH]; simpl; intros ys Hbody Hrun.
  - unret. injection Hrun as <-. constructor.
  - apply bind_Returns in Hrun as (g & Hg & Hrun).
    apply bind_Returns in Hrun as (rest & Hrest & Hrun).
    unret. injection Hrun as <-. apply Forall2_app.
    + apply Hbody; [left | done].
    + apply IH; [|done]. intros y g' Hy. apply Hbody. by right.
Qed.

Lemma collect_Throws {A B} (f : A -> result (list B)) l :
  collect f l = Throws <-> Exists (fun x => f x = Throws) l.
Proof.
  induction l as [|x l IH]; simpl.
  - split; [done | by intros ?%Exists_nil].
  - rewrite Exists_cons, <- IH. destruct (f x) as [|ys]; simpl.
    + split; [by left | done].
    + destruct (collect f l) as [|rest]; simpl.
      * split; [by right | done].
      * split; [done | by intros [?|?]].
Qed.

(** ** TTC: bare objects and lists *)

Lemma ttcEta_ext pred pred' dir dir' eta :
  nullish pred = nullish pred' ->
  GetOpt pred "routeTag" = GetOpt pred' "routeTag" ->
  nullish dir = nullish dir' ->
  GetOpt dir "title" = GetOpt dir' "title" ->
  ttcEta pred dir eta = ttcEta pred' dir' eta.
Proof.
  intros Hp Htag Hd Htitle. unfold ttcEta.
  rewrite !(Get_cases pred), !(Get_cases pred'), !(Get_cases dir), !(Get_cases dir').
  rewrite Hp, Hd. destruct (nullish dir'); [done|]. cbn [mbind result_bind].
  rewrite Htitle. destruct (match_opt match_line (GetOpt dir' "title")) as [|m]; [done|].
  cbn [mbind result_bind]. by rewrite Htag.
Qed.

Lemma ttcDirection_ext pred pred' dir :
  nullish pred = nullish pred' ->
  GetOpt pred "routeTag" = GetOpt pred' "routeTag" ->
  ttcDirection pred dir = ttcDirection pred' dir.
Proof.
  intros Hp Htag. unfold ttcDirection.
  destruct (Get dir "prediction") as [|prediction]; simpl; [done|].
  destruct (negb (truthy prediction)); [done|].
  apply collect_ext. intros eta _. by rewrite (ttcEta_ext pred pred' dir dir eta).
Qed.

(** X12. The TTC normalizer takes a bare object for the one-element list
    at each of its three levels: a payload whose [predictions], a
    prediction whose [direction], a direction whose [prediction] is a
    single object gives what the same with that object in a list gives. *)
Theorem normalizeTtc_bare_object (outer outer' inner pred : value) :
  nullish outer = false -> nullish outer' = false ->
  truthy inner = true -> isArray inner = false ->
  (GetOpt outer "predictions" = inner ->
   GetOpt outer' "predictions" = VArr [inner] ->
   normalizeTtc outer = normalizeTtc outer')
  /\ (GetOpt outer "direction" = inner ->
      GetOpt outer' "direction" = VArr [inner] ->
      GetOpt outer "routeTag" = GetOpt outer' "routeTag" ->
      ttcPrediction outer = ttcPrediction outer')
  /\ (GetOpt outer "prediction" = inner ->
      GetOpt outer' "prediction" = VArr [inner] ->
      GetOpt outer "title" = GetOpt outer' "title" ->
      ttcDirection pred outer = ttcDirection pred outer').
Proof.
  intros Ho Ho' Ht Harr.
  assert (Hone : one_or_many inner = [inner]) by (by destruct inner).
  split_and!.
  - intros Hp Hp'. unfold normalizeTtc.
    rewrite !Get_cases, Ho, Ho', Hp, Hp'.
    cbn [mbind result_bind truthy negb one_or_many]. by rewrite Ht, Hone.
  - intros Hd Hd' Htag. unfold ttcPrediction.
    rewrite !Get_cases, Ho, Ho', Hd, Hd'.
    cbn [mbind result_bind truthy negb one_or_many]. rewrite Ht, Hone.
    cbn [negb]. rewrite !collect_singleton. apply ttcDirection_ext; congruence.
  - intros He He' Htitle. unfold ttcDirection.
    rewrite !Get_cases, Ho, Ho', He, He'.
    cbn [mbind result_bind truthy negb one_or_many]. rewrite Ht, Hone.
    cbn [negb]. apply collect_ext. intros eta _.
    rewrite (ttcEta_ext pred pred outer outer' eta); congruence.
Qed.

Lemma normalizeTtc_bare_object_witness :
  normalizeTtc ttc_payload
  = normalizeTtc (VObj [("predictions", VArr [GetOpt ttc_payload "predictions"])]).
Proof.
  apply (normalizeTtc_bare_object ttc_payload
           (VObj [("predictions", VArr [GetOpt ttc_payload "predictions"])])
           (GetOpt ttc_payload "predictions") VNull); reflexivity.
Defined.

(** ** TTC: one prediction per eta *)

Lemma map_as_flat_map {A B} (g : A -> B) l :
  List.map g l = flat_map (fun x => [g x]) l.
Proof. induction l as [|x l IH]; simpl; by rewrite ?IH. Qed.

Lemma ttcDirection_etas pred dir aps :
  ttcDirection pred dir = Returns aps ->
  Forall2 (fun e ap => ttcEta e.1.1 e.1.2 e.2 = Returns ap)
          (List.map (fun eta => (pred, dir, eta)) (present (GetOpt dir "prediction")))
          aps.
Proof.
  unfold ttcDirection, present. intros Hrun.
  apply bind_Returns in Hrun as (prediction & Hp & Hrun).
  apply Get_Returns in Hp as [_ ->].
  destruct (truthy (GetOpt dir "prediction")); simpl in Hrun.
  2:{ unret. injection Hrun as <-. constructor. }
  rewrite map_as_flat_map.
  eapply collect_Forall2; [|exact Hrun].
  intros eta g _ Hg. simpl in Hg.
  apply bind_Returns in Hg as (ap & Hap & Hg). unret. injection Hg as <-.
  by repeat constructor.
Qed.

Lemma ttcPrediction_etas pred aps :
  ttcPrediction pred = Returns aps ->
  Forall2 (fun e ap => ttcEta e.1.1 e.1.2 e.2 = Returns ap)
          (flat_map (fun dir =>
             List.map (fun eta => (pred, dir, eta)) (present (GetOpt dir "prediction")))
             (present (GetOpt pred "direction")))
          aps.
Proof.
  unfold ttcPrediction, present at 2. intros Hrun.
  apply bind_Returns in Hrun as (direction & Hd & Hrun).
  apply Get_Returns in Hd as [_ ->].
  destruct (truthy (GetOpt pred "direction")); simpl in Hrun.
  2:{ unret. injection Hrun as <-. constructor. }
  eapply collect_Forall2; [|exact Hrun].
  intros dir g _ Hg. by apply ttcDirection_etas.
Qed.

(** X13. The TTC normalizer gives exactly one prediction per eta, in the
    order of the payload and none left out: the prediction of an eta is
    never a ghost, has the parsed [minutes] of the eta, 0 standing in when
    they do not parse, its [vehicle] as a string, and no platform. *)
Theorem normalizeTtc_one_per_eta json aps :
  normalizeTtc json = Returns aps ->
  Forall2 (fun e ap =>
             ttcEta e.1.1 e.1.2 e.2 = Returns ap
             /\ isGhost ap = false
             /\ timeMinutes ap = or_zero (parseInt_value (GetOpt e.2 "minutes"))
             /\ vehicleId ap = toString_opt (GetOpt e.2 "vehicle")
             /\ platform ap = VUndefined)
          (ttc_etas json) aps
  /\ length aps = length (ttc_etas json).
Proof.
  intros Hrun.
  assert (Hall : Forall2 (fun e ap => ttcEta e.1.1 e.1.2 e.2 = Returns ap)
                         (ttc_etas json) aps).
  { unfold normalizeTtc in Hrun. unfold ttc_etas, present at 3.
    apply bind_Returns in Hrun as (predictions & Hp & Hrun).
    apply Get_Returns in Hp as [_ ->].
    destruct (truthy (GetOpt json "predictions")); simpl in Hrun.
    2:{ unret. injection Hrun as <-. constructor. }
    eapply collect_Forall2; [|exact Hrun].
    intros pred g _ Hg. by apply ttcPrediction_etas. }
  split; [|symmetry; by eapply Forall2_length].
  eapply Forall2_impl; [exact Hall|].
  intros [[pred dir] eta] ap Hap. simpl in *. split; [done|].
  by apply ttcEta_Returns in Hap as (_ & _ & _ & Hmin & Hghost & Hveh & Hplat).
Qed.

Lemma normalizeTtc_one_per_eta_witness :
  exists aps, normalizeTtc ttc_payload = Returns aps /\ length aps = 1%nat.
Proof.
  eexists. split; [reflexivity|].
  by destruct (normalizeTtc_one_per_eta ttc_payload _ eq_refl) as [_ Hlen].
Defined.

(** ** TTC: the destination *)












Example ttc_destination_examples :
  destination_spec (VStr "504 - King TOWARDS Distillery Loop") = VStr "Distillery Loop"
  /\ destination_spec (VStr "504 - King") = VStr "504 - King"
  /\ destination_spec VUndefined = VStr ""
  /\ destination_spec
       (VStr ("504 King towards Dundas West" ++ line_separator ++ "Station"))
     = VStr ("504 King towards Dundas West" ++ line_separator ++ "Station").
Proof. by split_and!. Qed.

(** ** GO Transit: the other fields and the countdown *)

Lemma goService_fields h now service :
  nullish service = false ->
  exists ap, goService h now service = Returns ap
    /\ line ap = or_else (GetOpt service "LineName") (GetOpt service "LineCode")
    /\ destination ap = GetOpt service "DirectionName"
    /\ vehicleId ap
       = first_set (GetOpt service "TrainNumber") (GetOpt service "BusNumber")
    /\ platform ap
       = first_set (GetOpt service "ActualPlatform") (GetOpt service "ScheduledPlatform")
    /\ timeMinutes ap = minutesUntil (departureTime h service) now.
Proof.
  intros Hs. unfold goService, computedTime, scheduledTime.
  rewrite !(Get_GetOpt service) by done. simpl. eexists. split; [reflexivity|].
  simpl. split_and!; try done.
  - unfold first_set, or_else.
    destruct (truthy (GetOpt service "TrainNumber")) eqn:Ht; rewrite ?Ht; [done|].
    by destruct (truthy (GetOpt service "BusNumber")) eqn:Hb; rewrite ?Hb.
  - unfold first_set, or_else.
    destruct (truthy (GetOpt service "ActualPlatform")) eqn:Ht; rewrite ?Ht; [done|].
    by destruct (truthy (GetOpt service "ScheduledPlatform")) eqn:Hb; rewrite ?Hb.
Qed.

(** X15. In a GO prediction the vehicle is the train number when there is
    one, the bus number otherwise, and absent when there is neither; the
    platform is the actual one when there is one, the scheduled one
    otherwise; the line is the line name, or the line code when the name
    is missing; the destination is the direction name. *)
Theorem normalizeGoTransit_fields h tick apiResponse services (i : nat) service :
  nullish apiResponse = false ->
  GetOpt (GetOpt apiResponse "data") "NextService" = VArr services ->
  Forall (fun s => nullish s = false) services ->
  services !! i = Some service ->
  exists aps ap, normalizeGoTransit h tick apiResponse = Returns aps
    /\ aps !! i = Some ap
    /\ (truthy (GetOpt service "TrainNumber") = true ->
        vehicleId ap = GetOpt service "TrainNumber")
    /\ (truthy (GetOpt service "TrainNumber") = false ->
        truthy (GetOpt service "BusNumber") = true ->
        vehicleId ap = GetOpt service "BusNumber")
    /\ (truthy (GetOpt service "TrainNumber") = false ->
        truthy (GetOpt service "BusNumber") = false ->
        vehicleId ap = VUndefined)
    /\ platform ap
       = first_set (GetOpt service "ActualPlatform") (GetOpt service "ScheduledPlatform")
    /\ line ap = or_else (GetOpt service "LineName") (GetOpt service "LineCode")
    /\ destination ap = GetOpt service "DirectionName".
Proof.
  intros Hr Hsv Hall Hi.
  destruct (normalizeGoTransit_entries h tick apiResponse services Hr Hsv Hall)
    as (aps & Hrun & _ & Hat).
  destruct (Hat i service Hi) as (ap & Hap & Hgo).
  assert (Hobj : nullish service = false).
  { rewrite Forall_forall in Hall. apply Hall. by eapply list_elem_of_lookup_2. }
  destruct (goService_fields h (clock h (tick + i)) service Hobj)
    as (ap' & Hgo' & Hline & Hdest & Hveh & Hplat & _).
  rewrite Hgo in Hgo'. injection Hgo' as <-.
  exists aps, ap. split_and!; try done.
  - intros Ht. by rewrite Hveh; unfold first_set; rewrite Ht.
  - intros Ht Hb. by rewrite Hveh; unfold first_set; rewrite Ht, Hb.
  - intros Ht Hb. by rewrite Hveh; unfold first_set; rewrite Ht, Hb.
Qed.

Lemma normalizeGoTransit_fields_witness :
  exists aps ap, normalizeGoTransit (fixed_host 1000) 0 go_payload = Returns aps
    /\ aps !! 1%nat = Some ap
    /\ line ap = VStr "LE".
Proof.
  destruct (normalizeGoTransit_fields (fixed_host 1000) 0 go_payload go_services 1
              (VObj [("Computed", VNum (Num 1));
                     ("ScheduledDepartureTime", VNum (Num (-301000)));
                     ("LineCode", VStr "LE")]))
    as (aps & ap & Hrun & Hap & _ & _ & _ & _ & Hline & _);
    [reflexivity | reflexivity | repeat constructor | reflexivity |].
  exists aps, ap. split; [exact Hrun|]. split; [exact Hap | exact Hline].
Defined.

Lemma Math_round_div_mono d d' :
  d' <= d -> Math_round_div d' 60000 <= Math_round_div d 60000.
Proof. intros Hle. unfold Math_round_div. apply Z.div_le_mono; lia. Qed.

Lemma Math_round_div_half d :
  Math_round_div d 60000 <= 0 <-> d < 30000.
Proof.
  pose proof (Math_round_div_rounds d) as Hr. unfold rounds_to in Hr. lia.
Qed.

(** X16. The countdown of a GO entry with a valid departure time shows 0
    exactly when the departure is less than half a minute ahead of the
    clock (or past), and it never goes up as the clock advances. *)
Theorem goService_countdown h now later service t :
  nullish service = false ->
  departureTime h service = Num t ->
  now <= later ->
  exists ap ap' m m',
    goService h now service = Returns ap
    /\ goService h later service = Returns ap'
    /\ timeMinutes ap = Num m /\ timeMinutes ap' = Num m'
    /\ 0 <= m' <= m
    /\ (m = 0 <-> t - now < 30000).
Proof.
  intros Hobj Ht Hle.
  destruct (goService_fields h now service Hobj) as (ap & Hap & _ & _ & _ & _ & Hmin).
  destruct (goService_fields h later service Hobj)
    as (ap' & Hap' & _ & _ & _ & _ & Hmin').
  rewrite Ht in Hmin, Hmin'. simpl in Hmin, Hmin'.
  eexists ap, ap', _, _. split_and!; try done.
  - lia.
  - pose proof (Math_round_div_mono (t - now) (t - later)). lia.
  - pose proof (Math_round_div_half (t - now)). lia.
Qed.

Lemma goService_countdown_witness :
  exists ap ap' m m',
    goService (fixed_host 0) 1000 (VObj [("ScheduledDepartureTime", VNum (Num 301000))])
    = Returns ap
    /\ goService (fixed_host 0) 280000 (VObj [("ScheduledDepartureTime", VNum (Num 301000))])
       = Returns ap'
    /\ timeMinutes ap = Num m /\ timeMinutes ap' = Num m'
    /\ 0 <= m' <= m.
Proof.
  destruct (goService_countdown (fixed_host 0) 1000 280000
              (VObj [("ScheduledDepartureTime", VNum (Num 301000))]) 301000)
    as (ap & ap' & m & m' & H1 & H2 & H3 & H4 & H5 & _);
    [reflexivity | reflexivity | lia |].
  exists ap, ap', m, m'.
  split; [exact H1|]. split; [exact H2|]. split; [exact H3|]. split; [exact H4 | exact H5].
Defined.

(** ** When the normalizers throw *)

Lemma goMap_Throws h tick services :
  goMap h tick services = Throws <-> Exists (fun s => nullish s = true) services.
Proof.
  revert tick. induction services as [|s l IH]; intros tick; simpl.
  - split; [done | by intros ?%Exists_nil].
  - rewrite Exists_cons, <- (IH (S tick)). destruct (nullish s) eqn:Hs.
    + rewrite goService_Throws by done. simpl. split; [by left | done].
    + destruct (goService_Returns h (clock h tick) s Hs) as (ap & -> & _). simpl.
      destruct (goMap h (S tick) l); simpl.
      * split; [by right | done].
      * split; [done | by intros [?|?]].
Qed.

Lemma subwayItem_Throws item :
  subwayItem item = Throws <-> subway_item_ok item = false.
Proof.
  split.
  - intros Hthrow. destruct (subway_item_ok item) eqn:Hok; [|done].
    destruct (subwayItem_total item Hok) as [aps Haps]. congruence.
  - unfold subway_item_ok. intros Hbad.
    destruct (nullish item) eqn:Hobj.
    + unfold subwayItem. by rewrite !(Get_Throws item) by done.
    + simpl in Hbad. unfold subwayItem. rewrite !(Get_GetOpt item) by done.
      cbn [mbind result_bind].
      destruct (GetOpt item "nextTrains") as [| |b|n|s|l|fs]; simpl in *; try done.
      * by rewrite negb_false_iff in Hbad; rewrite Hbad.
      * by rewrite negb_false_iff in Hbad; rewrite Hbad.
Qed.

Lemma forallb_false_Exists {A} (p : A -> bool) l :
  forallb p l = false -> Exists (fun x => p x = false) l.
Proof.
  induction l as [|x l IH]; simpl; [done|].
  destruct (p x) eqn:Hx; simpl; [by right; apply IH | by left].
Qed.

(** X17. On payloads without objects or arrays where dates and line
    numbers stand (the departure times of the GO entries, the [line] of
    the subway items), the GO normalizer throws exactly when the response
    is [null] or [undefined] or an entry of its service list is; the
    subway normalizer throws exactly when the response is no array (or
    string), an item is [null] or [undefined], or the [nextTrains] of an
    item is set and no string. *)
Theorem normalizers_throw_exactly h tick payload :
  (go_typed payload = true ->
   (normalizeGoTransit h tick payload = Throws <-> go_ok payload = false))
  /\ (subway_typed payload = true ->
      (normalizeTtcSubway payload = Throws <-> subway_ok payload = false)).
Proof.
  split; intros _.
  - split.
    + intros Hthrow. destruct (go_ok payload) eqn:Hok; [|done].
      destruct (normalizeGoTransit_total h tick payload Hok) as [aps Haps]. congruence.
    + unfold go_ok. intros Hbad. destruct (nullish payload) eqn:Hobj.
      * unfold normalizeGoTransit. by rewrite !(Get_Throws payload) by done.
      * simpl in Hbad. unfold normalizeGoTransit.
        rewrite (Get_GetOpt payload) by done. cbn [mbind result_bind].
        destruct (GetOpt (GetOpt payload "data") "NextService") as [| |b|n|s|l|fs];
          try done.
        simpl. apply goMap_Throws.
        apply forallb_false_Exists in Hbad.
        eapply Exists_impl; [exact Hbad|]. intros s Hs.
        by apply negb_false_iff in Hs.
  - split.
    + intros Hthrow. destruct (subway_ok payload) eqn:Hok; [|done].
      destruct (normalizeTtcSubway_total payload Hok) as [aps Haps]. congruence.
    + unfold subway_ok, normalizeTtcSubway.
      destruct payload as [| |b|n|s|l|fs]; try done. intros Hbad. simpl.
      apply collect_Throws. apply forallb_false_Exists in Hbad.
      eapply Exists_impl; [exact Hbad|]. intros item Hitem.
      by apply subwayItem_Throws.
Qed.

Lemma normalizers_throw_exactly_witness :
  normalizeGoTransit (fixed_host 1000) 0 go_null_entry = Throws
  /\ normalizeTtcSubway subway_numeric_trains = Throws
  /\ normalizeGoTransit (fixed_host 1000) 0 go_payload <> Throws.
Proof.
  split_and!.
  - destruct (normalizers_throw_exactly (fixed_host 1000) 0 go_null_entry) as [Hgo _].
    apply (Hgo eq_refl). reflexivity.
  - destruct (normalizers_throw_exactly (fixed_host 1000) 0 subway_numeric_trains)
      as [_ Hsub].
    apply (Hsub eq_refl). reflexivity.
  - destruct (normalizers_throw_exactly (fixed_host 1000) 0 go_payload) as [Hgo _].
    intros Hthrow. apply (Hgo eq_refl) in Hthrow. discriminate Hthrow.
Defined.

(** ** Which tokens parse *)

Lemma digit_ascii c : is_digit c = true -> is_ascii c = true /\ is_space c = false.
Proof.
  unfold is_digit, is_ascii, is_space. intros Hd. apply andb_prop in Hd as [H1 H2].
  apply N.leb_le in H1, H2. split; [apply N.ltb_lt; lia|].
  destruct (N.leb_spec 9 (code c)), (N.leb_spec (code c) 13),
    (N.eqb_spec (code c) 32); simpl; try done; lia.
Qed.

Lemma skip_space_ascii c r :
  is_ascii c = true -> is_space c = false ->
  skip_space (String c r) = String c r.
Proof.
  unfold is_ascii. intros Hc%N.ltb_lt Hs. cbn [skip_space]. rewrite Hs.
  destruct r as [|b r2]; [done|].
  assert (is_space2 c b = false) as ->.
  { unfold is_space2. destruct (N.eqb_spec (code c) 194); [lia | done]. }
  destruct r2 as [|d r3]; [done|].
  assert (is_space3 c b d = false) as ->; [|done].
  unfold is_space3.
  destruct (N.eqb_spec (code c) 225); [lia|].
  destruct (N.eqb_spec (code c) 226); [lia|].
  destruct (N.eqb_spec (code c) 227); [lia|].
  destruct (N.eqb_spec (code c) 239); [lia | done].
Qed.

(** What is left after the white space starts with none. *)
Lemma space_width_skip s : space_width (skip_space s) = 0%nat.
Proof.
  remember (String.length s) as n eqn:Hn. revert s Hn.
  induction n as [n IH] using lt_wf_ind. intros s Hn.
  destruct s as [|a r]; [done|]. simpl in Hn.
  cbn [skip_space]. destruct (is_space a) eqn:Ha.
  { apply (IH (String.length r)); [lia | done]. }
  destruct r as [|b r2]; [by simpl; rewrite Ha|]. simpl in Hn.
  destruct (is_space2 a b) eqn:H2.
  { apply (IH (String.length r2)); [lia | done]. }
  destruct r2 as [|c r3]; [by simpl; rewrite Ha, H2|]. simpl in Hn.
  destruct (is_space3 a b c) eqn:H3.
  { apply (IH (String.length r3)); [lia | done]. }
  simpl. by rewrite Ha, H2, H3.
Qed.

Lemma skip_space_fixed s : space_width s = 0%nat -> skip_space s = s.
Proof.
  destruct s as [|a r]; [done|]. cbn [space_width skip_space].
  destruct (is_space a); [done|].
  destruct r as [|b r2]; [done|]. destruct (is_space2 a b); [done|].
  destruct r2 as [|c r3]; [done|]. by destruct (is_space3 a b c).
Qed.

Lemma trim_end_cons c s :
  skip_space (String c s) = String c s ->
  trim_end (String c s) = String c (trim_end s).
Proof.
  intros Hfix.
  change (trim_end (String c s))
    with (if is_empty (skip_space (String c s)) then EmptyString
          else String c (trim_end s)).
  by rewrite Hfix.
Qed.

Lemma trim_end_first s c t :
  trim_end s = String c t -> exists s', s = String c s' /\ t = trim_end s'.
Proof.
  destruct s as [|a s']; [done|].
  change (trim_end (String a s'))
    with (if is_empty (skip_space (String a s')) then EmptyString
          else String a (trim_end s')).
  destruct (is_empty (skip_space (String a s'))); [done|].
  intros [= -> <-]. by exists s'.
Qed.

Lemma space_width_trim_end s :
  space_width s = 0%nat -> space_width (trim_end s) = 0%nat.
Proof.
  destruct s as [|a r]; [done|]. intros Hw.
  rewrite trim_end_cons by (by apply skip_space_fixed).
  cbn [space_width] in *. destruct (is_space a); [done|].
  destruct (trim_end r) as [|b t] eqn:Hr; [done|].
  apply trim_end_first in Hr as (r2 & -> & ->).
  destruct (is_space2 a b); [done|].
  destruct (trim_end r2) as [|c t] eqn:Hr2; [done|].
  apply trim_end_first in Hr2 as (r3 & -> & ->).
  by destruct (is_space3 a b c).
Qed.

Lemma digits_value_trim_end acc s :
  digits_value acc (trim_end s) = digits_value acc s.
Proof.
  revert acc. induction s as [|c s IH]; intros acc; [done|].
  destruct (is_digit c) eqn:Hc.
  - destruct (digit_ascii c Hc) as [Hascii Hspace].
    rewrite trim_end_cons by (by apply skip_space_ascii). simpl. by rewrite Hc, IH.
  - change (trim_end (String c s))
      with (if is_empty (skip_space (String c s)) then EmptyString
            else String c (trim_end s)).
    destruct (is_empty (skip_space (String c s))); simpl; by rewrite ?Hc.
Qed.

Lemma digits_tail_trim_end (neg : bool) r :
  match trim_end r with
  | String c _ =>
      if is_digit c
      then Num (if neg then - digits_value 0 (trim_end r) else digits_value 0 (trim_end r))
      else NaN
  | EmptyString => NaN
  end
  = match r with
    | String c _ =>
        if is_digit c
        then Num (if neg then - digits_value 0 r else digits_value 0 r)
        else NaN
    | EmptyString => NaN
    end.
Proof.
  destruct r as [|d r]; [done|]. destruct (is_digit d) eqn:Hd.
  - rewrite digits_value_trim_end.
    destruct (digit_ascii d Hd) as [Hascii Hspace].
    rewrite trim_end_cons by (by apply skip_space_ascii). by rewrite Hd.
  - change (trim_end (String d r))
      with (if is_empty (skip_space (String d r)) then EmptyString
            else String d (trim_end r)).
    destruct (is_empty (skip_space (String d r))); [done|]. by rewrite Hd.
Qed.

(** White space around a token does not matter to [parseInt]. *)
Lemma parseInt_trim tok : parseInt (trim tok) = parseInt tok.
Proof.
  unfold parseInt, trim.
  pose proof (space_width_skip tok) as Hw.
  rewrite (skip_space_fixed (trim_end (skip_space tok)))
    by (by apply space_width_trim_end).
  destruct (skip_space tok) as [|c r]; [done|].
  rewrite trim_end_cons by (by apply skip_space_fixed).
  destruct (code c =? 45)%N eqn:Hminus; [|destruct (code c =? 43)%N eqn:Hplus].
  - apply (digits_tail_trim_end true r).
  - apply (digits_tail_trim_end false r).
  - rewrite <- (trim_end_cons c r) by (by apply skip_space_fixed).
    by rewrite digits_value_trim_end.
Qed.

(** A token parses exactly when it starts as an integer does. *)
Lemma parses_integer_start tok : parses tok = integer_start tok.
Proof.
  unfold parses. rewrite parseInt_trim. unfold parseInt, integer_start.
  destruct (skip_space tok) as [|c r]; [done|].
  destruct (code c =? 45)%N; [|destruct (code c =? 43)%N]; simpl.
  - destruct r as [|d r]; [done|]. by destruct (is_digit d).
  - destruct r as [|d r]; [done|]. by destruct (is_digit d).
  - by destruct (is_digit c).
Qed.

(** X18. The predictions of a subway item, by the tokens of its
    [nextTrains]: a token counts when, after leading white space (of
    ASCII or not), it begins with a digit, or with a sign followed by a
    digit. The item gives one prediction for each token that counts, in
    their order, and its minutes are [parseInt] of the token as it
    stands: the [trim()] of the source changes nothing. *)
Theorem subwayItem_tokens item s :
  GetOpt item "nextTrains" = VStr s ->
  plain (GetOpt item "line") = true ->
  exists aps,
    subwayItem item = Returns aps
    /\ length aps = length (List.filter integer_start (split_comma s))
    /\ List.map timeMinutes aps
       = List.map parseInt (List.filter integer_start (split_comma s))
    /\ nextTrainTimes s = List.map parseInt (split_comma s)
    /\ forall tok, parses tok = integer_start tok.
Proof.
  intros Hs _.
  assert (Hfilter : forall toks,
            List.filter parses toks = List.filter integer_start toks).
  { intros toks. apply filter_ext. intros tok. apply parses_integer_start. }
  assert (Htrim : forall toks,
            List.map (fun t => parseInt (trim t)) toks = List.map parseInt toks).
  { intros toks. apply map_ext. intros tok. apply parseInt_trim. }
  eexists. split; [by apply subwayItem_string|].
  rewrite Hfilter, Htrim. split_and!.
  - by rewrite !length_map.
  - rewrite map_map. simpl. by rewrite map_id.
  - unfold nextTrainTimes. apply Htrim.
  - apply parses_integer_start.
Qed.

Lemma subwayItem_tokens_witness :
  exists aps,
    subwayItem subway_blanks_item = Returns aps
    /\ List.map timeMinutes aps = [Num 3; Num 5; Num (-2)].
Proof.
  destruct (subwayItem_tokens subway_blanks_item
              (" 3 ," ++ nbsp_five ++ ",x,-2,+ 4")) as (aps & Hrun & _ & Hmin & _).
  - reflexivity.
  - reflexivity.
  - exists aps. split; [exact Hrun | exact Hmin].
Defined.

Example parses_examples :
  List.map parses ["3"; " 7 "; "x"; ""; "-2"; "+ 4"; "12abc"; "0x1A"; nbsp_five]
  = [true; true; false; false; true; false; true; true; true].
Proof. reflexivity. Qed.

(** ** Subway labels *)

(** X19. Every prediction of the subway normalizer comes from an item of
    the response and carries its label and direction: the line is
    [Line n] for an item with a line number other than 0 and [Subway]
    for an item without, the destination is the direction text or the
    empty string, and there is neither a vehicle nor a platform. *)
Theorem normalizeTtcSubway_labels response aps ap :
  normalizeTtcSubway response = Returns aps -> ap ∈ aps ->
  exists items item,
    iterate response = Returns items
    /\ item ∈ items
    /\ line ap = subway_label item
    /\ destination ap = or_else (GetOpt item "directionText") (VStr "")
    /\ vehicleId ap = VUndefined /\ platform ap = VUndefined
    /\ (truthy (GetOpt item "line") = false -> line ap = VStr "Subway")
    /\ (forall n, GetOpt item "line" = VNum (Num n) -> n <> 0 ->
          line ap = VStr ("Line " ++ number_to_string (Num n))).
Proof.
  unfold normalizeTtcSubway. intros Hrun Hap.
  apply bind_Returns in Hrun as (items & Hitems & Hrun).
  destruct (collect_elem_of _ _ _ _ Hrun Hap) as (item & zs & Hitem & Hzs & Hin).
  destruct (subwayItem_origin _ _ _ Hzs Hin) as (s & tok & Hs & _).
  rewrite (subwayItem_string item s Hs) in Hzs. injection Hzs as <-.
  apply list_elem_of_In, in_map_iff in Hin as (m & <- & _).
  exists items, item. simpl. split_and!; try done.
  - intros Hf. by rewrite Hf.
  - intros n Hn Hne. rewrite Hn. simpl.
    by destruct (Z.eqb_spec n 0).
Qed.

Lemma normalizeTtcSubway_labels_witness :
  exists items item,
    iterate subway_payload = Returns items
    /\ item ∈ items
    /\ line (subwayPrediction (VNum (Num 1)) (VStr "Northbound") (Num 3))
       = subway_label item.
Proof.
  destruct (normalizeTtcSubway_labels subway_payload
              (List.map (subwayPrediction (VNum (Num 1)) (VStr "Northbound"))
                        [Num 3; Num 7; Num 12])
              (subwayPrediction (VNum (Num 1)) (VStr "Northbound") (Num 3)))
    as (items & item & Hit & Hin & Hline & _).
  - reflexivity.
  - apply list_elem_of_here.
  - exists items, item. split; [exact Hit|]. split; [exact Hin | exact Hline].
Defined.

End AdapterExtras.

(** * Properties of the proxy worker *)

Module WorkerFacts.
Import JS Worker.

Lemma newResponse_Gives h b s hs :
  200 <= s <= 599 ->
  b = None \/ null_body_status s = false ->
  newResponse h b s hs = Gives {| status := s; headers := hs; body := b |}.
Proof.
  intros Hs Hb. unfold newResponse.
  destruct (Z.ltb_spec s 200), (Z.ltb_spec 599 s); try lia. simpl.
  destruct Hb as [-> | ->]; [done|]. by rewrite andb_false_r.
Qed.

Lemma newResponse_inv h b s hs r :
  newResponse h b s hs = Gives r ->
  r = {| status := s; headers := hs; body := b |}
  /\ 200 <= s <= 599
  /\ (b = None \/ null_body_status s = false).
Proof.
  unfold newResponse.
  destruct (Z.ltb_spec s 200), (Z.ltb_spec 599 s); simpl; try done.
  destruct b as [v|]; simpl.
  - destruct (null_body_status s); [done|]. intros [= <-].
    split_and!; [done | lia | lia | by right].
  - intros [= <-]. split_and!; [done | lia | lia | by left].
Qed.

Lemma header_is_refl name v : header_is name (name, v) = true.
Proof. unfold header_is. apply String.eqb_refl. Qed.

Lemma headers_get_set name v hs : headers_get name (headers_set name v hs) = Some v.
Proof.
  unfold headers_get. induction hs as [|e hs IH]; simpl.
  - by rewrite header_is_refl.
  - destruct (header_is name e) eqn:He; simpl.
    + unfold header_is in *. simpl. by rewrite He.
    + by rewrite He.
Qed.

Lemma allowedOrigin_allowed request : allowedOrigin request ∈ ALLOWED_ORIGINS.
Proof.
  unfold allowedOrigin. destruct (origin request) as [o|]; [|by left].
  destruct (bool_decide (o ∈ ALLOWED_ORIGINS)) eqn:Ho; [|by left].
  by apply bool_decide_eq_true in Ho.
Qed.

(** A response that was constructed can be constructed again with the
    [Access-Control-Allow-Origin] header set. *)
Lemma withCors_Gives h request response r :
  response = Gives r ->
  200 <= status r <= 599 ->
  body r = None \/ null_body_status (status r) = false ->
  withCors h request response
  = Gives {| status := status r;
             headers := headers_set "Access-Control-Allow-Origin"
                          (allowedOrigin request) (headers r);
             body := body r |}.
Proof.
  intros -> Hs Hb. unfold withCors, andThen, addCorsHeaders.
  by apply newResponse_Gives.
Qed.

(** A response of status 500 settles the case. *)
Ltac answer_500 H :=
  let r := fresh "r" in
  destruct H as (r & ? & ? & ? & ? & ? & ?);
  exists r; split; [assumption|]; split; [assumption|]; split; [assumption|];
  split; [assumption|]; split; [assumption|]; left; assumption.

(** What [fetchGoTransit] answers: it always has a response, and three
    cases make its status. *)
Lemma fetchGoTransit_cases h stop key :
  exists r, (fetchGoTransit h stop key).1 = Gives r
    /\ headers r = [("Content-Type", "application/json")]
    /\ (exists v, body r = Some v)
    /\ 200 <= status r <= 599
    /\ null_body_status (status r) = false
    /\ (status r = 500
        \/ (exists url k s text data,
              fetch h url k = Replied s text (Gives data) /\ is_2xx s = true
              /\ status r = 200
              /\ body r = Some (VObj [("agency", VStr "go"); ("stopCode", VStr stop);
                                      ("data", data);
                                      ("timestamp", VStr (toISOString h))]))
        \/ (exists url k text json,
              fetch h url k = Replied (status r) text json
              /\ is_2xx (status r) = false)).
Proof.
  assert (H500 : forall v,
            exists r, jsonResponse h v 500 = Gives r
              /\ headers r = [("Content-Type", "application/json")]
              /\ (exists v', body r = Some v')
              /\ 200 <= status r <= 599
              /\ null_body_status (status r) = false
              /\ status r = 500).
  { intros v. eexists. split; [reflexivity|]. simpl.
    split; [done|]. split; [by eexists|]. split; [lia|]. by split. }
  unfold fetchGoTransit.
  destruct key as [[|c0 k0]|]; simpl.
  1,3: answer_500 (H500 (VObj [("error", VStr "Metrolinx API key not configured")])).
  set (url := ("http://api.openmetrolinx.com/OpenDataAPI/api/V1/Stop/NextService/"
               ++ encodeURIComponent h stop)%string).
  pose (failed := fun m =>
         H500 (VObj [("error", VStr "Failed to fetch from Metrolinx"); ("message", m)])).
  destruct (fetch h url (String c0 k0)) as [m|s text json] eqn:Hfetch.
  { answer_500 (failed m). }
  destruct (is_2xx s) eqn:Hok; simpl.
  - destruct json as [m|data]; [answer_500 (failed m)|].
    eexists. split; [reflexivity|]. simpl.
    split; [done|]. split; [by eexists|]. split; [lia|]. split; [done|].
    right. left. by exists url, (String c0 k0), s, text, data.
  - destruct text as [m|t]; [answer_500 (failed m)|].
    destruct (jsonResponse h (VObj [("error", VStr "Metrolinx API error");
                                    ("status", VNum (Num s)); ("message", VStr t)]) s)
      as [m|r] eqn:Hr; [answer_500 (failed m)|].
    apply newResponse_inv in Hr as (-> & Hs & Hb).
    destruct Hb as [Hb|Hn]; [done|].
    eexists. split; [reflexivity|]. simpl.
    split; [done|]. split; [by eexists|]. split; [done|]. split; [done|].
    right. right. by exists url, (String c0 k0), (Gives t), json.
Qed.

(** The response to anything but a preflight is an inner response with
    the [Access-Control-Allow-Origin] header set; four cases make the
    inner response and the requests sent upstream. *)
Lemma handle_inner h key request :
  String.eqb (method request) "OPTIONS" = false ->
  exists inner,
    (handle h key request).1
    = Gives {| status := status inner;
               headers := headers_set "Access-Control-Allow-Origin"
                            (allowedOrigin request) (headers inner);
               body := body inner |}
    /\ headers inner = [("Content-Type", "application/json")]
    /\ (exists v, body inner = Some v)
    /\ ((String.eqb (method request) "GET" = false
         /\ status inner = 405 /\ (handle h key request).2 = [])
        \/ (method request = "GET" /\ missing_parameters request
            /\ status inner = 400 /\ (handle h key request).2 = [])
        \/ (method request = "GET"
            /\ exists a c, agency request = Some a /\ stopCode request = Some c
                 /\ is_empty a = false /\ is_empty c = false
                 /\ Adapters.lower_string a <> "go"
                 /\ status inner = 400
                 /\ body inner = Some (VObj [("error", VStr "Unknown agency");
                                             ("agency", VStr a);
                                             ("supported", VArr [VStr "go"])])
                 /\ (handle h key request).2 = [])
        \/ (method request = "GET"
            /\ exists a c, agency request = Some a /\ stopCode request = Some c
                 /\ is_empty c = false
                 /\ Adapters.lower_string a = "go"
                 /\ (fetchGoTransit h c key).1 = Gives inner
                 /\ (handle h key request).2 = (fetchGoTransit h c key).2)).
Proof.
  intros Hopt. unfold handle. rewrite Hopt.
  destruct (String.eqb (method request) "GET") eqn:Hget; simpl.
  - apply String.eqb_eq in Hget.
    assert (Hmissing : missing_parameters request ->
              exists inner,
                withCors h request
                  (jsonResponse h
                     (VObj [("error", VStr "Missing required parameters");
                            ("required", VArr [VStr "agency"; VStr "stopCode"]);
                            ("example", VStr "?agency=go&stopCode=UN")]) 400)
                = Gives {| status := status inner;
                           headers := headers_set "Access-Control-Allow-Origin"
                                        (allowedOrigin request) (headers inner);
                           body := body inner |}
                /\ headers inner = [("Content-Type", "application/json")]
                /\ (exists v, body inner = Some v)
                /\ status inner = 400).
    { intros _. eexists {| status := 400 |}. split; [reflexivity|]. simpl.
      split; [done|]. split; [by eexists | done]. }
    unfold missing_parameters in *.
    destruct (agency request) as [a|] eqn:Ha, (stopCode request) as [c|] eqn:Hc;
      try (destruct (Hmissing I) as (inner & Hrun & Hh & Hb & Hs);
           exists inner; simpl; split; [exact Hrun|]; split; [exact Hh|];
           split; [exact Hb|]; right; left; by split_and!).
    destruct (is_empty a) eqn:Hea; simpl.
    { destruct (Hmissing (or_introl eq_refl)) as (inner & Hrun & Hh & Hb & Hs).
      exists inner. split; [exact Hrun|]. split; [exact Hh|]. split; [exact Hb|].
      right. left. split_and!; try done. by left. }
    destruct (is_empty c) eqn:Hec; simpl.
    { destruct (Hmissing (or_intror eq_refl)) as (inner & Hrun & Hh & Hb & Hs).
      exists inner. split; [exact Hrun|]. split; [exact Hh|]. split; [exact Hb|].
      right. left. split_and!; try done. by right. }
    destruct (String.eqb (Adapters.lower_string a) "go") eqn:Hgo.
    + apply String.eqb_eq in Hgo.
      destruct (fetchGoTransit_cases h c key) as (inner & Hin & Hh & Hb & Hs & Hn & _).
      destruct (fetchGoTransit h c key) as [response sent] eqn:Hf. simpl in *.
      exists inner. split.
      { apply withCors_Gives; [done | done | by right]. }
      split; [exact Hh|]. split; [exact Hb|].
      right. right. right. split; [done|]. exists a, c. rewrite Hf.
      by split_and!.
    + apply String.eqb_neq in Hgo.
      eexists {| status := 400 |}. simpl. split; [reflexivity|]. simpl.
      split; [done|]. split; [by eexists|].
      right. right. left. split; [done|]. exists a, c. by split_and!.
  - eexists {| status := 405 |}. split; [reflexivity|]. simpl.
    split; [done|]. split; [by eexists|]. left. by split_and!.
Qed.

Lemma handle_preflight h key request :
  String.eqb (method request) "OPTIONS" = true ->
  handle h key request
  = (Gives {| status := 204;
              headers := (CORS_HEADERS
                          ++ [("Access-Control-Allow-Origin", allowedOrigin request)])%list;
              body := None |}, []).
Proof. intros Hopt. unfold handle. by rewrite Hopt. Qed.

Lemma fetchGoTransit_sent h stop key url k :
  (url, k) ∈ (fetchGoTransit h stop key).2 ->
  key = Some k /\ is_empty k = false
  /\ url = ("http://api.openmetrolinx.com/OpenDataAPI/api/V1/Stop/NextService/"
            ++ encodeURIComponent h stop)%string
  /\ (fetchGoTransit h stop key).2 = [(url, k)].
Proof.
  unfold fetchGoTransit. destruct key as [[|c0 k0]|]; simpl;
    try (by intros ?%elem_of_nil).
  intros [= -> ->]%list_elem_of_singleton. done.
Qed.

(** X20. Every request gets a response, and the response names one
    allowed origin in [Access-Control-Allow-Origin]: the origin of the
    request when it is on the list, the first of the list otherwise, so an
    origin that is not listed is never echoed. *)
Theorem handle_allow_origin h key request :
  exists r, (handle h key request).1 = Gives r
    /\ headers_get "Access-Control-Allow-Origin" (headers r)
       = Some (allowedOrigin request)
    /\ allowedOrigin request ∈ ALLOWED_ORIGINS
    /\ (forall o, origin request = Some o -> o ∈ ALLOWED_ORIGINS ->
          allowedOrigin request = o)
    /\ (forall o, origin request = Some o -> o ∉ ALLOWED_ORIGINS ->
          allowedOrigin request = "https://thomassth.github.io")
    /\ (origin request = None ->
        allowedOrigin request = "https://thomassth.github.io").
Proof.
  assert (Hchoice :
    (forall o, origin request = Some o -> o ∈ ALLOWED_ORIGINS ->
       allowedOrigin request = o)
    /\ (forall o, origin request = Some o -> o ∉ ALLOWED_ORIGINS ->
          allowedOrigin request = "https://thomassth.github.io")
    /\ (origin request = None ->
        allowedOrigin request = "https://thomassth.github.io")).
  { unfold allowedOrigin. split_and!.
    - intros o -> Ho. by rewrite bool_decide_eq_true_2.
    - intros o -> Ho. by rewrite bool_decide_eq_false_2.
    - by intros ->. }
  destruct Hchoice as (H1 & H2 & H3).
  destruct (String.eqb (method request) "OPTIONS") eqn:Hopt.
  - rewrite (handle_preflight h key request Hopt). eexists. split; [reflexivity|].
    split; [reflexivity|]. split; [apply allowedOrigin_allowed|]. by split_and!.
  - destruct (handle_inner h key request Hopt) as (inner & Hrun & _).
    eexists. split; [exact Hrun|]. simpl.
    split; [apply headers_get_set|]. split; [apply allowedOrigin_allowed|].
    by split_and!.
Qed.

(** X21. The worker sends at most one request upstream, and only for a
    GET that names the agency [go] (in any case) and a stop code, with a
    key configured: the request goes to the Metrolinx URL of the encoded
    stop code and carries the key; a preflight, another method, missing
    parameters, another agency or a missing key send nothing. *)
Theorem handle_upstream h key request :
  (length (handle h key request).2 <= 1)%nat
  /\ forall url k, (url, k) ∈ (handle h key request).2 ->
       method request = "GET"
       /\ key = Some k /\ is_empty k = false
       /\ exists a c, agency request = Some a /\ stopCode request = Some c
            /\ Adapters.lower_string a = "go" /\ is_empty c = false
            /\ url = ("http://api.openmetrolinx.com/OpenDataAPI/api/V1/Stop/NextService/"
                      ++ encodeURIComponent h c)%string.
Proof.
  destruct (String.eqb (method request) "OPTIONS") eqn:Hopt.
  { rewrite (handle_preflight h key request Hopt). simpl.
    split; [lia | by intros url k ?%elem_of_nil]. }
  destruct (handle_inner h key request Hopt) as (inner & _ & _ & _ & Hcase).
  destruct Hcase as [(_ & _ & ->)|[(_ & _ & _ & ->)|[(_ & a & c & Hcase)|(Hget & a & c & Hcase)]]];
    try (simpl; split; [lia | by intros url k ?%elem_of_nil]).
  - destruct Hcase as (_ & _ & _ & _ & _ & _ & _ & ->).
    simpl; split; [lia | by intros url k ?%elem_of_nil].
  - destruct Hcase as (Ha & Hc & Hec & Hgo & _ & ->). split.
    + unfold fetchGoTransit. destruct key as [[|c0 k0]|]; simpl; lia.
    + intros url k Hin.
      apply fetchGoTransit_sent in Hin as (-> & Hk & -> & _).
      split_and!; try done. by exists a, c.
Qed.

(** X22. The status of the response: 204 without a body for a preflight,
    405 for a method other than GET, 400 for missing parameters or another
    agency; a 200 is only given on a 2xx reply of the upstream whose JSON
    could be read, and then carries the agency [go], the stop code asked
    for and that JSON; any other status than these and 500 is the status
    of an upstream reply that was not 2xx. *)
Theorem handle_status h key request :
  exists r, (handle h key request).1 = Gives r
    /\ (method request = "OPTIONS" -> status r = 204 /\ body r = None)
    /\ (method request <> "OPTIONS" -> method request <> "GET" -> status r = 405)
    /\ (method request = "GET" -> missing_parameters request -> status r = 400)
    /\ (status r = 200 ->
        exists c url k s text data,
          stopCode request = Some c
          /\ fetch h url k = Replied s text (Gives data) /\ is_2xx s = true
          /\ body r = Some (VObj [("agency", VStr "go"); ("stopCode", VStr c);
                                  ("data", data);
                                  ("timestamp", VStr (toISOString h))]))
    /\ (status r <> 200 -> status r <> 204 -> status r <> 400 ->
        status r <> 405 -> status r <> 500 ->
        exists url k text json,
          fetch h url k = Replied (status r) text json
          /\ is_2xx (status r) = false /\ 200 <= status r <= 599).
Proof.
  destruct (String.eqb (method request) "OPTIONS") eqn:Hopt.
  { rewrite (handle_preflight h key request Hopt). apply String.eqb_eq in Hopt.
    eexists. split; [reflexivity|]. simpl. rewrite Hopt. by split_and!. }
  apply String.eqb_neq in Hopt as Hne.
  destruct (handle_inner h key request Hopt) as (inner & Hrun & _ & _ & Hcase).
  eexists. split; [exact Hrun|]. simpl.
  destruct Hcase as [(Hget & Hs & _)|[(Hget & Hmiss & Hs & _)|[(Hget & a & c & Hcase)|(Hget & a & c & Hcase)]]].
  - apply String.eqb_neq in Hget. rewrite Hs. by split_and!.
  - rewrite Hs. split_and!; try done; try (by rewrite Hget).
  - destruct Hcase as (Ha & Hc & Hea & Hec & Hgo & Hs & _). rewrite Hs.
    by split_and!.
  - destruct Hcase as (Ha & Hc & Hec & Hgo & Hin & _).
    destruct (fetchGoTransit_cases h c key)
      as (r & Hr & _ & _ & Hrange & _ & Hkind).
    rewrite Hin in Hr. injection Hr as <-.
    split_and!; try done.
    + intros _ Hmiss. unfold missing_parameters in Hmiss. rewrite Ha, Hc, Hec in Hmiss.
      destruct Hmiss as [Hea|?]; [|done].
      destruct a; [by cbv in Hgo | done].
    + intros H200.
      destruct Hkind as [H500|[(url & k & s & text & data & Hf & Hok & _ & Hb)|(url & k & text & json & Hf & Hok)]].
      * lia.
      * by exists c, url, k, s, text, data.
      * rewrite H200 in Hok. by cbv in Hok.
    + intros N200 _ _ _ N500.
      destruct Hkind as [H500|[(url & k & s & text & data & _ & _ & H200 & _)|(url & k & text & json & Hf & Hok)]];
        [done | done |].
      by exists url, k, text, json.
Qed.

(** X23. The agency parameter is read without regard to case: a request
    for [GO], [Go] or [gO] is answered as the request for [go] is. *)
Theorem handle_agency_case h key request a :
  agency request = Some a ->
  Adapters.lower_string a = "go" ->
  handle h key request
  = handle h key {| method := method request; origin := origin request;
                    agency := Some "go"; stopCode := stopCode request |}.
Proof.
  intros Ha Hgo. unfold handle, withCors, addCorsHeaders, handleOptions, allowedOrigin.
  simpl. rewrite Ha.
  destruct (String.eqb (method request) "OPTIONS"); [done|].
  destruct (negb (String.eqb (method request) "GET")); [done|].
  destruct (stopCode request) as [c|]; [|done].
  assert (Hea : is_empty a = false) by (destruct a; [by cbv in Hgo | done]).
  rewrite Hea. simpl. destruct (is_empty c); [done|].
  by rewrite Hgo.
Qed.

Lemma handle_upstream_witness :
  ("http://api.openmetrolinx.com/OpenDataAPI/api/V1/Stop/NextService/UN", "secret")
    ∈ (handle host_404 (Some "secret") (get_go None)).2
  /\ method (get_go None) = "GET"
  /\ exists a, agency (get_go None) = Some a /\ Adapters.lower_string a = "go".
Proof.
  assert (Hin : ("http://api.openmetrolinx.com/OpenDataAPI/api/V1/Stop/NextService/UN",
                 "secret")
                ∈ (handle host_404 (Some "secret") (get_go None)).2).
  { vm_compute. apply list_elem_of_singleton. reflexivity. }
  split; [exact Hin|].
  destruct (handle_upstream host_404 (Some "secret") (get_go None)) as [_ Hsent].
  destruct (Hsent _ _ Hin) as (Hget & _ & _ & a & c & Ha & _ & Hgo & _).
  split; [exact Hget|]. exists a. split; [exact Ha | exact Hgo].
Defined.

Lemma handle_status_witness :
  exists r, (handle host_404 (Some "secret") (get_go None)).1 = Gives r
    /\ status r = 404.
Proof.
  destruct (handle_status host_404 (Some "secret") (get_go None))
    as (r & Hrun & _).
  exists r. split; [exact Hrun|].
  vm_compute in Hrun. by injection Hrun as <-.
Defined.

Lemma handle_agency_case_witness :
  handle host_404 (Some "secret") (get_go (Some "https://tobus.ca"))
  = handle host_404 (Some "secret")
      {| method := "GET"; origin := Some "https://tobus.ca";
         agency := Some "go"; stopCode := Some "UN" |}.
Proof.
  apply (handle_agency_case host_404 (Some "secret") (get_go (Some "https://tobus.ca")) "GO");
    reflexivity.
Defined.

Example handle_examples :
  (fun r => match r with Gives x => Some (status x) | Fails _ => None end)
    <$> [ (handle host_404 (Some "secret") (get_go None)).1;
          (handle host_404 None (get_go None)).1;
          (handle host_404 (Some "secret")
             {| method := "GET"; origin := None; agency := Some "yrt";
                stopCode := Some "1" |}).1;
          (handle host_404 (Some "secret")
             {| method := "POST"; origin := None; agency := None;
                stopCode := None |}).1;
          (handle host_404 (Some "secret")
             {| method := "OPTIONS"; origin := Some "https://evil.example";
                agency := None; stopCode := None |}).1 ]
  = [Some 404; Some 500; Some 400; Some 405; Some 204].
Proof. by vm_compute. Qed.

Lemma handle_allow_origin_witness :
  exists r,
    (handle host_404 (Some "secret")
       {| method := "GET"; origin := Some "https://evil.example";
          agency := Some "go"; stopCode := Some "UN" |}).1 = Gives r
    /\ headers_get "Access-Control-Allow-Origin" (headers r)
       = Some "https://thomassth.github.io".
Proof.
  destruct (handle_allow_origin host_404 (Some "secret")
              {| method := "GET"; origin := Some "https://evil.example";
                 agency := Some "go"; stopCode := Some "UN" |})
    as (r & Hrun & Hheader & _).
  exists r. split; [exact Hrun | exact Hheader].
Defined.

End WorkerFacts.

(** * Properties of the route list *)

Module RouteFacts.
Import JS Routes.

Lemma drop_digits_hyphen ds rest :
  string_forall is_digit ds = true ->
  drop_while is_digit (ds ++ String "-" rest) = String "-" rest.
Proof.
  induction ds as [|c ds IH]; [done|].
  simpl. intros [Hc Hds]%andb_true_iff.
  change (drop_while is_digit (String c (ds ++ String "-" rest)) = String "-" rest).
  simpl. rewrite Hc. by apply IH.
Qed.

Lemma code_hyphen h : (code h =? 45)%N = true -> h = "-"%char.
Proof.
  intros Hh%N.eqb_eq. unfold code in Hh.
  by rewrite <- (ascii_N_embedding h), Hh.
Qed.

(** A match at the start is a run of digits and a hyphen at the start. *)
Lemma digits_hyphen_Some s r :
  digits_hyphen s = Some r <->
  exists ds, s = (ds ++ String "-" r)%string
    /\ is_empty ds = false /\ string_forall is_digit ds = true.
Proof.
  split.
  - unfold digits_hyphen. destruct s as [|c s]; [done|].
    destruct (is_digit c) eqn:Hc; [|done].
    destruct (drop_while is_digit (String c s)) as [|h r'] eqn:Hdrop; [done|].
    destruct (code h =? 45)%N eqn:Hh; [|done]. intros [= <-].
    apply code_hyphen in Hh as ->.
    exists (take_while is_digit (String c s)). split_and!.
    + by rewrite <- Hdrop, AdapterFacts.take_drop_while.
    + simpl. by rewrite Hc.
    + apply AdapterFacts.take_while_forall.
  - intros (ds & -> & Hne & Hall). destruct ds as [|c ds]; [done|].
    pose proof Hall as Hall'.
    simpl in Hall. apply andb_true_iff in Hall as [Hc Hall].
    change ((String c ds ++ String "-" r)%string) with (String c (ds ++ String "-" r)).
    unfold digits_hyphen. rewrite Hc.
    change (String c (ds ++ String "-" r)) with ((String c ds ++ String "-" r)%string).
    by rewrite drop_digits_hyphen.
Qed.

(** What the search finds is a match, and there is none that starts
    before it. *)
Lemma routeTitleRegex_exec_Some s pre post :
  routeTitleRegex_exec s = Some (pre, post) ->
  (exists ds, s = (pre ++ ds ++ String "-" post)%string
     /\ is_empty ds = false /\ string_forall is_digit ds = true)
  /\ forall pre' ds' post',
       s = (pre' ++ ds' ++ String "-" post')%string ->
       is_empty ds' = false -> string_forall is_digit ds' = true ->
       (String.length pre <= String.length pre')%nat.
Proof.
  revert pre post. induction s as [|c s IH]; intros pre post.
  - by cbv.
  - cbn [routeTitleRegex_exec].
    destruct (digits_hyphen (String c s)) as [r|] eqn:Hstart.
    + intros [= <- <-]. split; [|simpl; lia].
      apply digits_hyphen_Some in Hstart as (ds & Hs & Hne & Hall).
      exists ds. by rewrite Hs.
    + destruct (routeTitleRegex_exec s) as [[pre0 post0]|] eqn:Hrest; [|done].
      intros [= <- <-].
      destruct (IH pre0 post0 eq_refl) as [(ds & Hs & Hne & Hall) Hleft].
      split.
      * exists ds. split_and!; try done.
        change (String c s = String c (pre0 ++ ds ++ String "-" post0)).
        by rewrite <- Hs.
      * intros pre' ds' post' Hs' Hne' Hall'.
        destruct pre' as [|c' pre'].
        { assert (digits_hyphen (String c s) = Some post') as Hm.
          { apply digits_hyphen_Some. by exists ds'. }
          by rewrite Hm in Hstart. }
        change (String c s = String c' (pre' ++ ds' ++ String "-" post')) in Hs'.
        injection Hs' as -> Hs'. simpl.
        specialize (Hleft pre' ds' post' Hs' Hne' Hall'). lia.
Qed.

Lemma routeTitleRegex_exec_None s pre ds post :
  routeTitleRegex_exec s = None ->
  s = (pre ++ ds ++ String "-" post)%string ->
  is_empty ds = false ->
  string_forall is_digit ds = false.
Proof.
  intros Hnone Hs Hne. destruct (string_forall is_digit ds) eqn:Hall; [|done].
  exfalso. revert pre Hs. induction s as [|c s IH]; intros pre Hs.
  - destruct pre, ds; done.
  - cbn [routeTitleRegex_exec] in Hnone.
    destruct (digits_hyphen (String c s)) as [r|] eqn:Hstart; [done|].
    destruct (routeTitleRegex_exec s) as [[pre0 post0]|] eqn:Hrest; [done|].
    destruct pre as [|c' pre].
    + assert (digits_hyphen (String c s) = Some post) as Hm.
      { apply digits_hyphen_Some. by exists ds. }
      by rewrite Hm in Hstart.
    + change (String c s = String c' (pre ++ ds ++ String "-" post)) in Hs.
      injection Hs as -> Hs. by apply (IH eq_refl pre).
Qed.

(** The decimal digits of a number that is not negative. *)
Lemma uint_digits d :
  string_forall is_digit (NilEmpty.string_of_uint d) = true.
Proof. induction d; simpl; [done|by rewrite IHd..]. Qed.

Lemma number_to_string_digits n :
  0 <= n ->
  is_empty (number_to_string (Num n)) = false
  /\ string_forall is_digit (number_to_string (Num n)) = true.
Proof.
  intros Hn. unfold number_to_string.
  destruct n as [|p|p]; [done| |lia].
  simpl. unfold NilZero.string_of_uint.
  destruct (Pos.to_uint p) as [|d|d|d|d|d|d|d|d|d|d] eqn:Hp;
    [done|split; [done|]; rewrite <- Hp; apply uint_digits..].
Qed.

(** X25. A title that begins with its route number and a hyphen, as
    [501-Queen] does, loses them: the title that remains is what follows
    the hyphen, whatever it is. *)
Theorem parseRouteTitle_numbered n name :
  0 <= n ->
  parseRouteTitle (number_to_string (Num n) ++ "-" ++ name) = name.
Proof.
  intros Hn. destruct (number_to_string_digits n Hn) as [Hne Hall].
  unfold parseRouteTitle, routeTitleRegex_test, routeTitleRegex_remove.
  assert (routeTitleRegex_exec (number_to_string (Num n) ++ "-" ++ name)
          = Some (EmptyString, name)) as ->; [|done].
  assert (digits_hyphen (number_to_string (Num n) ++ "-" ++ name) = Some name)
    as Hm.
  { apply digits_hyphen_Some. by exists (number_to_string (Num n)). }
  destruct (number_to_string (Num n) ++ "-" ++ name)%string as [|c s];
    cbn [routeTitleRegex_exec]; by rewrite Hm.
Qed.

(** X26. [parseRouteTitle] takes out of a title the first run of digits
    that a hyphen follows, and the hyphen with it, and nothing else: no
    such run starts further left, and a title without one comes back
    unchanged. *)
Theorem parseRouteTitle_spec input :
  (exists pre ds post,
     input = (pre ++ ds ++ String "-" post)%string
     /\ is_empty ds = false /\ string_forall is_digit ds = true
     /\ parseRouteTitle input = (pre ++ post)%string
     /\ forall pre' ds' post',
          input = (pre' ++ ds' ++ String "-" post')%string ->
          is_empty ds' = false -> string_forall is_digit ds' = true ->
          (String.length pre <= String.length pre')%nat)
  \/ (parseRouteTitle input = input
      /\ forall pre ds post,
           input = (pre ++ ds ++ String "-" post)%string ->
           is_empty ds = false -> string_forall is_digit ds = false).
Proof.
  unfold parseRouteTitle, routeTitleRegex_test, routeTitleRegex_remove.
  destruct (routeTitleRegex_exec input) as [[pre post]|] eqn:Hexec.
  - left. destruct (routeTitleRegex_exec_Some input pre post Hexec)
      as [(ds & Hs & Hne & Hall) Hleft].
    exists pre, ds, post. by split_and!.
  - right. split; [done|]. intros pre ds post.
    by apply routeTitleRegex_exec_None.
Qed.

Lemma parseRouteTitle_numbered_witness :
  parseRouteTitle "501-Queen" = "Queen".
Proof. apply (parseRouteTitle_numbered 501 "Queen"). lia. Defined.

(** The route numbers up to 999. *)
Lemma lineType_numbers_checked :
  forallb (fun k => String.eqb (lineType (number_to_string (Num (Z.of_nat k))))
                               (kind_by_hundreds (Z.of_nat k)))
          (seq 0 1000) = true.
Proof. by vm_compute. Qed.

(** X27. The kind of a line, for a route number up to 999 written in
    decimal: rail up to 6, local from 7 to 99, and from 100 on by the
    hundreds: express for the 900s, night for the 300s, streetcar for the
    500s, seasonal for the 200s and 400s, local for the others. *)
Theorem lineType_route_number n :
  0 <= n <= 999 ->
  lineType (number_to_string (Num n)) = kind_by_hundreds n.
Proof.
  intros Hn. pose proof lineType_numbers_checked as Hall.
  rewrite forallb_forall in Hall.
  specialize (Hall (Z.to_nat n)). rewrite Z2Nat.id in Hall by lia.
  apply String.eqb_eq, Hall, in_seq. lia.
Qed.

Lemma lineType_route_number_witness :
  lineType "504" = "streetcar".
Proof. apply (lineType_route_number 504). lia. Defined.

(** X28. The case of the text [1] never decides: a line is seasonal only
    when its text has a [2], a [4] or a comma followed by two digits (and
    no number up to 6 in front, no [9], [3] or [5] followed by two
    digits); the text [1] is a rail line. *)
Theorem lineType_seasonal text :
  lineType text = "seasonal" ->
  lead_two_digits is_2_comma_4 text = true
  /\ at_most (parseInt_any text) 6 = false
  /\ lead_two_digits (is_char 57) text = false
  /\ lead_two_digits (is_char 51) text = false
  /\ lead_two_digits (is_char 53) text = false.
Proof.
  unfold lineType.
  destruct (at_most (parseInt_any text) 6) eqn:Hrail; [done|].
  destruct (lead_two_digits (is_char 57) text); [done|].
  destruct (lead_two_digits (is_char 51) text); [done|].
  destruct (lead_two_digits (is_char 53) text); [done|].
  destruct (String.eqb text "1") eqn:Hone.
  { apply String.eqb_eq in Hone. subst text. by vm_compute in Hrail. }
  by destruct (lead_two_digits is_2_comma_4 text).
Qed.

Lemma lineType_seasonal_witness :
  lead_two_digits is_2_comma_4 ",12" = true /\ lineType "1" = "rail".
Proof.
  split; [|reflexivity].
  by destruct (lineType_seasonal ",12" eq_refl) as [Hlead _].
Defined.

End RouteFacts.
